(** * stock_checker.py: the polling and notification loop

    A shallow embedding of [stock_checker.py].  The module-level globals
    ([running], [consecutive_failures], [last_heartbeat]) live in a [World]
    that is threaded through every call; everything the script asks of the
    outside (the clock, the environment, the browser driver, the Pushover
    endpoint, the SMTP relay, signal delivery) is answered by an [Oracle];
    every call that leaves the process is recorded as an [event].  Python
    exceptions are a third component of a computation's outcome, handled by
    [try_except] and [try_finally] as Python does.

    Conventions of the model:
    - [int] is [Z]; a [str] is the [string] of its UTF-8 bytes; a
      [datetime] or [timedelta] is its number of microseconds; [None] from
      [os.getenv] is [None];
    - the loop of [main] is unrolled at most [fuel] times, and a run that
      needs more ends in [Running]: the process is still in its loop;
    - CPython runs a signal handler between two bytecodes of the main
      thread, wherever that is.  [main_loop] places the handler at two
      points of an iteration, when the check has returned and during the
      sleep, and so has only some of the runs with signals.  What the loop
      does once shutdown is signalled is therefore not read off these runs:
      it is proved for every state in which [running] is false, at the test
      of the loop, at the start of an iteration and after the check,
      wherever the handler ran to leave that state;
    - [driver.quit()] does not raise (ChromiumDriver's [quit] swallows what
      its session raises);
    - a [Config] holds the values of [config.env] once the module is
      loaded: [int(...)] of lines 33-35 has returned.  With a value that
      [int] refuses the import ends in a [ValueError] and [main] is never
      called; that is before everything modelled here. *)

From Stdlib Require Import ZArith String Ascii List Bool DecimalString Lia.
Import ListNotations.
Open Scope string_scope.
Open Scope Z_scope.

(** ** Python strings *)

Module PyStr.

(** The line feed written [\n] in the source's literals. *)
Definition nl : string := String "010"%char EmptyString.

(** [str(n)] / [{n}] / [%d] for an [int]. *)
Definition of_int (z : Z) : string := NilZero.string_of_int (Z.to_int z).

(** [hay.startswith(needle)]. *)
Fixpoint startswith (needle hay : string) : bool :=
  match needle with
  | EmptyString => true
  | String a n' =>
      match hay with
      | EmptyString => false
      | String b h' => Ascii.eqb a b && startswith n' h'
      end
  end.

(** [needle in hay]: some suffix of [hay] starts with [needle]. *)
Fixpoint contains (needle hay : string) : bool :=
  startswith needle hay ||
  match hay with
  | EmptyString => false
  | String _ h' => contains needle h'
  end.

(** A [str] is held as the bytes of its UTF-8 encoding, which is also how
    the string literals of this file are read.  A code point below U+0080
    is one byte and no byte of a longer encoding is below 0x80, so [in],
    [split(",")], [join] and [+] do to the bytes what Python does to the
    code points.  [strip] removes white space, which is not all ASCII: each
    white-space character is removed as the byte sequence that encodes it.
    Such a sequence starts with a byte (below 0x80, or 0xC2, 0xE1, 0xE2,
    0xE3) that starts a character wherever it stands, so a string starts
    or ends with the sequence exactly when the [str] starts or ends with
    the character.  A byte that is not part of a well-formed encoding (the
    environment may hold one; Python reads it as a lone surrogate) is a
    character that is not white space, here as there. *)

(** The code points for which [str.isspace()] is true; they are what
    [str.strip()] removes. *)
Definition WHITESPACE : list N :=
  [0x09; 0x0A; 0x0B; 0x0C; 0x0D; 0x1C; 0x1D; 0x1E; 0x1F; 0x20;
   0x85; 0xA0; 0x1680;
   0x2000; 0x2001; 0x2002; 0x2003; 0x2004; 0x2005; 0x2006; 0x2007; 0x2008;
   0x2009; 0x200A;
   0x2028; 0x2029; 0x202F; 0x205F; 0x3000]%N.

(** The UTF-8 bytes of a code point below U+10000. *)
Definition utf8 (cp : N) : list ascii :=
  (if cp <? 0x80 then [ascii_of_N cp]
   else if cp <? 0x800 then
     [ascii_of_N (0xC0 + cp / 0x40); ascii_of_N (0x80 + cp mod 0x40)]
   else
     [ascii_of_N (0xE0 + cp / 0x1000);
      ascii_of_N (0x80 + (cp / 0x40) mod 0x40);
      ascii_of_N (0x80 + cp mod 0x40)])%N.

(** The white-space characters as they stand in a string. *)
Definition spaces : list (list ascii) := map utf8 WHITESPACE.

(** [chr(cp)], the one-character string. *)
Definition chr (cp : N) : string := string_of_list_ascii (utf8 cp).

(** [l] without its prefix [p], if it starts with [p]. *)
Fixpoint after (p l : list ascii) : option (list ascii) :=
  match p with
  | [] => Some l
  | a :: p' =>
      match l with
      | [] => None
      | b :: l' => if Ascii.eqb a b then after p' l' else None
      end
  end.

(** [l] without the first member of [ps] that it starts with. *)
Fixpoint after_any (ps : list (list ascii)) (l : list ascii)
  : option (list ascii) :=
  match ps with
  | [] => None
  | p :: ps' =>
      match after p l with
      | Some r => Some r
      | None => after_any ps' l
      end
  end.

(** [l] without its leading members of [ps], at most [n] of them. *)
Fixpoint drop_leading (ps : list (list ascii)) (n : nat) (l : list ascii)
  : list ascii :=
  match n with
  | O => l
  | S n' =>
      match after_any ps l with
      | Some r => drop_leading ps n' r
      | None => l
      end
  end.

(** [s.lstrip()]: a string has no more characters than bytes. *)
Definition lstrip (s : string) : string :=
  let l := list_ascii_of_string s in
  string_of_list_ascii (drop_leading spaces (List.length l) l).

(** [s.rstrip()]: the same from the end. *)
Definition rstrip (s : string) : string :=
  let l := rev (list_ascii_of_string s) in
  string_of_list_ascii
    (rev (drop_leading (map (@rev ascii) spaces) (List.length l) l)).

Definition strip (s : string) : string := rstrip (lstrip s).

(** Does [s] start, does it end, with a white-space character? *)
Definition leading_space (s : string) : bool :=
  match after_any spaces (list_ascii_of_string s) with
  | Some _ => true
  | None => false
  end.

Definition trailing_space (s : string) : bool :=
  match after_any (map (@rev ascii) spaces)
                  (rev (list_ascii_of_string s)) with
  | Some _ => true
  | None => false
  end.

(** [s.split(sep)] for a one-character separator; never the empty list. *)
Fixpoint split (sep : ascii) (s : string) : list string :=
  match s with
  | EmptyString => [EmptyString]
  | String c t =>
      if Ascii.eqb c sep then EmptyString :: split sep t
      else match split sep t with
           | h :: r => String c h :: r
           | [] => [String c EmptyString]
           end
  end.

(** [sep.join(l)]. *)
Fixpoint join (sep : string) (l : list string) : string :=
  match l with
  | [] => EmptyString
  | [x] => x
  | x :: r => x ++ sep ++ join sep r
  end.

(** Truth value of a [str]: only the empty string is false. *)
Definition nonempty (s : string) : bool :=
  match s with EmptyString => false | _ => true end.

(** Truth value of what [os.getenv] returns: [None] and the empty string are
    false. *)
Definition truthy (o : option string) : bool :=
  match o with Some s => nonempty s | None => false end.

End PyStr.

(** ** Exceptions *)

(** The exception classes that the script names, and the ones the libraries
    under it raise, with their base classes. *)
Inductive exn_class : Type :=
| BaseException | KeyboardInterrupt | Exception
| TypeError | ValueError | ArithmeticError | OverflowError
| OSError | TimeoutError | ConnectionRefusedError | SSLError
| RequestException | HTTPError | RequestsConnectionError | RequestsTimeout
| SMTPException | SMTPServerDisconnected | SMTPAuthenticationError
| SMTPRecipientsRefused
| WebDriverException | TimeoutException | InvalidArgumentException
| SessionNotCreatedException
| MaxRetryError.

Definition exn_class_eqb (a b : exn_class) : bool :=
  match a, b with
  | BaseException, BaseException | KeyboardInterrupt, KeyboardInterrupt
  | Exception, Exception | TypeError, TypeError | ValueError, ValueError
  | ArithmeticError, ArithmeticError | OverflowError, OverflowError
  | OSError, OSError | TimeoutError, TimeoutError
  | ConnectionRefusedError, ConnectionRefusedError | SSLError, SSLError
  | RequestException, RequestException | HTTPError, HTTPError
  | RequestsConnectionError, RequestsConnectionError
  | RequestsTimeout, RequestsTimeout
  | SMTPException, SMTPException
  | SMTPServerDisconnected, SMTPServerDisconnected
  | SMTPAuthenticationError, SMTPAuthenticationError
  | SMTPRecipientsRefused, SMTPRecipientsRefused
  | WebDriverException, WebDriverException
  | TimeoutException, TimeoutException
  | InvalidArgumentException, InvalidArgumentException
  | SessionNotCreatedException, SessionNotCreatedException
  | MaxRetryError, MaxRetryError => true
  | _, _ => false
  end.

(** The base class: [requests.RequestException] and [smtplib.SMTPException]
    derive from [OSError]; selenium's [WebDriverException] and urllib3's
    [MaxRetryError] derive from [Exception] directly. *)
Definition base (c : exn_class) : option exn_class :=
  match c with
  | BaseException => None
  | KeyboardInterrupt => Some BaseException
  | Exception => Some BaseException
  | TypeError | ValueError | ArithmeticError | OSError | WebDriverException
  | MaxRetryError => Some Exception
  | OverflowError => Some ArithmeticError
  | TimeoutError | ConnectionRefusedError | SSLError
  | RequestException | SMTPException => Some OSError
  | HTTPError | RequestsConnectionError | RequestsTimeout =>
      Some RequestException
  | SMTPServerDisconnected | SMTPAuthenticationError
  | SMTPRecipientsRefused => Some SMTPException
  | TimeoutException | InvalidArgumentException
  | SessionNotCreatedException => Some WebDriverException
  end.

(** [issubclass(c, d)]; the hierarchy above is four levels deep. *)
Fixpoint issubclass_upto (n : nat) (c d : exn_class) : bool :=
  exn_class_eqb c d ||
  match n with
  | O => false
  | S n' => match base c with
            | Some b => issubclass_upto n' b d
            | None => false
            end
  end.

Definition issubclass : exn_class -> exn_class -> bool := issubclass_upto 4.

(** An exception object: its class and [str(e)]. *)
Record exn : Type := mkExn { class_of : exn_class; str_of : string }.

(** Does [except (c1, ..., cn)] catch [e]? *)
Definition caught_by (classes : list exn_class) (e : exn) : bool :=
  existsb (issubclass (class_of e)) classes.

(** ** What the process does to the outside: events *)

Inductive level : Type := INFO | WARNING | ERROR.

(** The [MIMEMultipart] message with its single [text/plain] part. *)
Record email_message : Type := mkMsg {
  msg_From : string; msg_To : string; msg_Subject : string; msg_Body : string
}.

(** [CallPush] and [CallEmail] mark the entry into [send_push] and
    [send_email] with the arguments of the call (what the unit tests'
    mocks record); the rest are calls that leave the process. *)
Inductive event : Type :=
| Log (lvl : level) (text : string)
| CallPush (message title : string) (url : option string)
| CallEmail (subject body : string) (url : option string)
| Post (endpoint : string) (data : list (string * string)) (timeout : Z)
| SmtpConnect (host : string) (port : Z)
| StartTLS
| Login (user password : string)
| Sendmail (sender : string) (recipients : list string) (msg : email_message)
| SmtpQuit
| ChromeNew (arguments : list string)
| DriverGet (url : option string)
| AddCookie (name value : option string)
| PageSource
| DriverQuit
| Sleep (secs : Z).

(** ** Configuration, globals and the outside *)

(** The module-level constants read from [config.env] at import. *)
Record Config : Type := mkConfig {
  PRODUCT_URL : option string;
  STORE_COOKIE_NAME : option string;
  STORE_COOKIE_VALUE : option string;
  POLL_INTERVAL : Z;
  MAX_RETRIES : Z;
  HEARTBEAT_HOURS : Z
}.

Inductive smtp_stage : Type := AtConnect | AtStartTLS | AtLogin | AtSendmail | AtQuit.
Inductive fetch_stage : Type := AtHome | AtCookie | AtProduct | AtSource.

(** Answers of the outside.  Times are microseconds, the resolution of
    [datetime]; an answer [Some e] means the call raises [e]. *)
Record Oracle : Type := mkOracle {
  now_at : nat -> Z;                  (* n-th [datetime.now()] *)
  strftime : Z -> string;             (* ['%Y-%m-%d %H:%M:%S'] *)
  getenv : string -> option string;   (* [os.getenv] *)
  post_at : nat -> option exn;        (* n-th [requests.post] and [raise_for_status] *)
  smtp_at : nat -> smtp_stage -> option exn;   (* n-th SMTP session *)
  chrome_at : nat -> option exn;      (* [webdriver.Chrome(...)] of the n-th check *)
  fetch_at : nat -> fetch_stage -> option exn; (* driver calls of the n-th check *)
  page_at : nat -> string;            (* [driver.page_source] of the n-th check *)
  signals_after_check : nat -> list Z;  (* delivered when the n-th check has returned *)
  signals_in_sleep : nat -> list Z      (* delivered during the sleep after it *)
}.

(** The globals, and how many answers of each kind were consumed. *)
Record World : Type := mkWorld {
  running : bool;
  consecutive_failures : Z;
  last_heartbeat : option Z;
  clock_reads : nat;
  posts : nat;
  smtp_sessions : nat;
  checks : nat
}.

Definition set_running (b : bool) (w : World) : World :=
  mkWorld b (consecutive_failures w) (last_heartbeat w)
          (clock_reads w) (posts w) (smtp_sessions w) (checks w).
Definition set_consecutive_failures (n : Z) (w : World) : World :=
  mkWorld (running w) n (last_heartbeat w)
          (clock_reads w) (posts w) (smtp_sessions w) (checks w).
Definition set_last_heartbeat (t : option Z) (w : World) : World :=
  mkWorld (running w) (consecutive_failures w) t
          (clock_reads w) (posts w) (smtp_sessions w) (checks w).
Definition tick_clock (w : World) : World :=
  mkWorld (running w) (consecutive_failures w) (last_heartbeat w)
          (S (clock_reads w)) (posts w) (smtp_sessions w) (checks w).
Definition tick_posts (w : World) : World :=
  mkWorld (running w) (consecutive_failures w) (last_heartbeat w)
          (clock_reads w) (S (posts w)) (smtp_sessions w) (checks w).
Definition tick_smtp (w : World) : World :=
  mkWorld (running w) (consecutive_failures w) (last_heartbeat w)
          (clock_reads w) (posts w) (S (smtp_sessions w)) (checks w).
Definition tick_checks (w : World) : World :=
  mkWorld (running w) (consecutive_failures w) (last_heartbeat w)
          (clock_reads w) (posts w) (smtp_sessions w) (S (checks w)).

(** ** Computations *)

(** How a computation ends: with a value, with an exception, or not within
    the steps granted ([Running]: the process is still in its loop). *)
Inductive result (A : Type) : Type :=
| Ret (a : A)
| Raise (e : exn)
| Running.
Arguments Ret {A} a.
Arguments Raise {A} e.
Arguments Running {A}.

Record Outcome (A : Type) : Type := mkOut {
  res : result A;
  world : World;
  out : list event
}.
Arguments mkOut {A} res world out.
Arguments res {A} o.
Arguments world {A} o.
Arguments out {A} o.

Definition M (A : Type) : Type := World -> Outcome A.

Definition ret {A} (a : A) : M A := fun w => mkOut (Ret a) w [].
Definition raise {A} (e : exn) : M A := fun w => mkOut (Raise e) w [].
Definition still_running {A} : M A := fun w => mkOut Running w [].

Definition bind {A B} (m : M A) (f : A -> M B) : M B :=
  fun w =>
    match m w with
    | mkOut (Ret a) w1 o1 =>
        match f a w1 with
        | mkOut r w2 o2 => mkOut r w2 (o1 ++ o2)
        end
    | mkOut (Raise e) w1 o1 => mkOut (Raise e) w1 o1
    | mkOut Running w1 o1 => mkOut Running w1 o1
    end.

Declare Scope py_scope.
Delimit Scope py_scope with py.
Notation "x <- m ;; f" := (bind m (fun x => f))
  (at level 61, m at next level, right associativity) : py_scope.
Notation "m ;; f" := (bind m (fun _ => f))
  (at level 61, right associativity) : py_scope.
Open Scope py_scope.

Definition emit (e : event) : M unit := fun w => mkOut (Ret tt) w [e].
Definition get {A} (f : World -> A) : M A := fun w => mkOut (Ret (f w)) w [].
Definition modify (f : World -> World) : M unit :=
  fun w => mkOut (Ret tt) (f w) [].

(** A call that leaves the process: it is made, and raises if the outside
    says so. *)
Definition extcall (ev : event) (answer : option exn) : M unit :=
  emit ev ;;
  match answer with
  | None => ret tt
  | Some e => raise e
  end.

(** [try: body  except classes as e: handler e]. *)
Definition try_except {A} (body : M A) (classes : list exn_class)
                      (handler : exn -> M A) : M A :=
  fun w =>
    match body w with
    | mkOut (Raise e) w1 o1 =>
        if caught_by classes e then
          match handler e w1 with
          | mkOut r w2 o2 => mkOut r w2 (o1 ++ o2)
          end
        else mkOut (Raise e) w1 o1
    | o => o
    end.

(** [try: body  finally: fin].  The [finally] block runs however the body
    ended; if it raises, its exception replaces the body's. *)
Definition try_finally {A} (body : M A) (fin : M unit) : M A :=
  fun w =>
    match body w with
    | mkOut Running w1 o1 => mkOut Running w1 o1
    | mkOut r w1 o1 =>
        match fin w1 with
        | mkOut (Ret _) w2 o2 => mkOut r w2 (o1 ++ o2)
        | mkOut (Raise e) w2 o2 => mkOut (Raise e) w2 (o1 ++ o2)
        | mkOut Running w2 o2 => mkOut Running w2 (o1 ++ o2)
        end
    end.

(** ** The program *)

Import PyStr.

Definition IN_STOCK_MARKER : string := "'inStock':'True'".
Definition OUT_OF_STOCK_MARKER : string := "'inStock':'False'".

(** [td.days] and [td.seconds] of a [timedelta] of [us] microseconds:
    [timedelta] keeps [0 <= seconds < 86400] and lets [days] carry the
    sign, which is what floor division gives. *)
Definition td_days (us : Z) : Z := us / 86400000000.
Definition td_seconds (us : Z) : Z := (us mod 86400000000) / 1000000.

(** The largest magnitude of [td.days]. *)
Definition MAX_DELTA_DAYS : Z := 999999999.

Definition or_empty (o : option string) : string :=
  match o with Some s => s | None => EmptyString end.

Section Program.

Variable cfg : Config.
Variable orc : Oracle.

(** [datetime.now()]. *)
Definition now : M Z :=
  n <- get clock_reads ;;
  modify tick_clock ;;
  ret (now_at orc n).

(** [timedelta(hours=h)], in microseconds; out of range it raises. *)
Definition timedelta_hours (h : Z) : M Z :=
  let us := h * 3600 * 1000000 in
  if Z.abs (td_days us) >? MAX_DELTA_DAYS
  then raise (mkExn OverflowError "days; must have magnitude <= 999999999")
  else ret us.

(** [time.sleep(secs)] *)
Definition sleep (secs : Z) : M unit :=
  if secs <? 0
  then raise (mkExn ValueError "sleep length must be non-negative")
  else emit (Sleep secs).

(** [send_push(message, title, url)] *)
Definition send_push (message title : string) (url : option string) : M unit :=
  emit (CallPush message title url) ;;
  let token := getenv orc "PUSHOVER_TOKEN" in
  let user := getenv orc "PUSHOVER_USER" in
  if negb (truthy token) || negb (truthy user) then
    emit (Log WARNING "Pushover credentials missing, skipping push")
  else
    let payload :=
      [("token", or_empty token); ("user", or_empty user);
       ("message", message); ("title", title)] in
    let payload :=
      if truthy url
      then (payload ++ [("url", or_empty url); ("url_title", "View Product")])%list
      else payload in
    try_except
      (n <- get posts ;;
       modify tick_posts ;;
       extcall (Post "https://api.pushover.net/1/messages.json" payload 5)
               (post_at orc n) ;;
       emit (Log INFO "Pushover notification sent"))
      [RequestException]
      (fun e => emit (Log ERROR ("Pushover error: " ++ str_of e))).

(** [send_email(subject, body, url)] *)
Definition send_email (subject body : string) (url : option string) : M unit :=
  emit (CallEmail subject body url) ;;
  let email_user := getenv orc "EMAIL_USER" in
  let email_password := getenv orc "EMAIL_PASSWORD" in
  let email_recipients :=
    filter nonempty
      (map strip (split ","%char (or_empty (getenv orc "EMAIL_RECIPIENTS")))) in
  if negb (truthy email_user && truthy email_password &&
           match email_recipients with [] => false | _ => true end) then
    emit (Log WARNING "Email settings incomplete, skipping email")
  else
    let body :=
      if truthy url then body ++ nl ++ nl ++ "Product URL: " ++ or_empty url
      else body in
    let msg := mkMsg (or_empty email_user) (join ", " email_recipients)
                     subject body in
    try_except
      (n <- get smtp_sessions ;;
       modify tick_smtp ;;
       extcall (SmtpConnect "smtp.gmail.com" 587) (smtp_at orc n AtConnect) ;;
       try_finally
         (extcall StartTLS (smtp_at orc n AtStartTLS) ;;
          extcall (Login (or_empty email_user) (or_empty email_password))
                  (smtp_at orc n AtLogin) ;;
          extcall (Sendmail (or_empty email_user) email_recipients msg)
                  (smtp_at orc n AtSendmail) ;;
          emit (Log INFO "Email notification sent"))
         (extcall SmtpQuit (smtp_at orc n AtQuit)))
      [SMTPException; OSError]
      (fun e => emit (Log ERROR ("Email error: " ++ str_of e))).

(** [handle_shutdown(_signum, _frame)] *)
Definition handle_shutdown (signum : Z) : M unit :=
  emit (Log INFO ("Received signal " ++ of_int signum ++
                  ", initiating graceful shutdown...")) ;;
  send_push
    ("Microcenter Stock Checker service is shutting down gracefully." ++ nl ++
     "Monitoring will stop after current check completes.")
    "Service Stopping"
    (PRODUCT_URL cfg) ;;
  send_email
    "Microcenter Stock Checker Service Stopping"
    ("The Microcenter Stock Checker service is being shut down gracefully." ++ nl ++
     "Monitoring will stop after the current check completes.")
    (PRODUCT_URL cfg) ;;
  modify (set_running false).

(** The handler runs once for each signal delivered. *)
Fixpoint deliver (signums : list Z) : M unit :=
  match signums with
  | [] => ret tt
  | s :: rest => handle_shutdown s ;; deliver rest
  end.

(** [set_store_cookie(driver)], for the driver of check number [c]. *)
Definition set_store_cookie (c : nat) : M unit :=
  extcall (DriverGet (Some "https://www.microcenter.com")) (fetch_at orc c AtHome) ;;
  sleep 1 ;;
  extcall (AddCookie (STORE_COOKIE_NAME cfg) (STORE_COOKIE_VALUE cfg))
          (fetch_at orc c AtCookie) ;;
  extcall (DriverGet (PRODUCT_URL cfg)) (fetch_at orc c AtProduct) ;;
  sleep 1.

(** [send_heartbeat()] *)
Definition send_heartbeat : M unit :=
  lh <- get last_heartbeat ;;
  uptime <- match lh with
            | Some t => (n <- now ;; ret (n - t))
            | None => ret 0
            end ;;
  checked <- now ;;
  let message :=
    "Microcenter Stock Checker service is running normally." ++ nl ++
    "Uptime: " ++ of_int (td_days uptime) ++ " days, " ++
    of_int (td_seconds uptime / 3600) ++ " hours" ++ nl ++
    "Last check: " ++ strftime orc checked in
  send_push message "Service Heartbeat" (PRODUCT_URL cfg) ;;
  send_email "Microcenter Stock Checker Service Heartbeat" message
             (PRODUCT_URL cfg) ;;
  t <- now ;;
  modify (set_last_heartbeat (Some t)).

(** The body of the [try] in [check_stock]; [Some b] is [return b], [None]
    is falling off the end of the block. *)
Definition check_stock_try (c : nat) : M (option bool) :=
  set_store_cookie c ;;
  extcall PageSource (fetch_at orc c AtSource) ;;
  let page := page_at orc c in
  if contains IN_STOCK_MARKER page then
    modify (set_consecutive_failures 0) ;;
    emit (Log INFO "Status: In Stock!") ;;
    send_push "Product is in stock! Click to view the product page."
              "In Stock" (PRODUCT_URL cfg) ;;
    send_email "Product In Stock"
      "Your product is now available! Click the link below to view the product page."
      (PRODUCT_URL cfg) ;;
    ret (Some true)
  else if contains OUT_OF_STOCK_MARKER page then
    modify (set_consecutive_failures 0) ;;
    emit (Log INFO "Status: Out of Stock") ;;
    ret (Some false)
  else
    modify (fun w => set_consecutive_failures (consecutive_failures w + 1) w) ;;
    n <- get consecutive_failures ;;
    emit (Log WARNING ("Status: Unknown (Failure #" ++ of_int n ++ ")")) ;;
    (if n >=? MAX_RETRIES cfg then
       send_push
         ("Stock check returned unknown status " ++ of_int n ++
          " times in a row." ++ nl ++ "Click to verify manually.")
         "Checker Error" (PRODUCT_URL cfg) ;;
       send_email "Stock Checker Error"
         ("Unknown stock status detected " ++ of_int n ++ " times in a row." ++
          nl ++ "Please verify manually using the link below.")
         (PRODUCT_URL cfg)
     else ret tt) ;;
    ret None.

(** The [except (WebDriverException, TimeoutError) as e] block. *)
Definition check_stock_except (e : exn) : M (option bool) :=
  modify (fun w => set_consecutive_failures (consecutive_failures w + 1) w) ;;
  n <- get consecutive_failures ;;
  emit (Log ERROR ("Checker exception: " ++ str_of e ++ " (Failure #" ++
                   of_int n ++ ")")) ;;
  (if n >=? MAX_RETRIES cfg then
     send_push
       ("Checker failed " ++ of_int n ++ " times in a row: " ++ str_of e ++
        nl ++ "Click to check manually.")
       "Checker Exception" (PRODUCT_URL cfg) ;;
     send_email "Stock Checker Exception"
       ("The stock checker encountered " ++ of_int n ++
        " consecutive errors:" ++ nl ++ str_of e ++ nl ++ nl ++
        "Please check manually using the link below.")
       (PRODUCT_URL cfg)
   else ret tt) ;;
  ret None.

(** [check_stock()].  The driver is created before the [try]; its
    [quit()] (which ChromiumDriver makes non-raising) is the [finally]. *)
Definition check_stock : M bool :=
  c <- get checks ;;
  modify tick_checks ;;
  extcall (ChromeNew ["--headless"; "--disable-gpu"; "--no-sandbox"])
          (chrome_at orc c) ;;
  r <- try_finally
         (try_except (check_stock_try c)
                     [WebDriverException; TimeoutError]
                     check_stock_except)
         (emit DriverQuit) ;;
  match r with
  | Some b => ret b
  | None => ret false
  end.

(** The [while running:] loop of [main], for at most [fuel] iterations.
    A signal handler runs between two bytecodes, wherever the main thread
    is; here the handler is run at two points of an iteration, when the
    check has returned and during the sleep.  Runs in which it runs
    elsewhere (between the test and the check, inside the check, in the
    [finally] of [main]) are not among the runs of [main_loop]. *)
Fixpoint main_loop (fuel : nat) : M unit :=
  r <- get running ;;
  if r then
    match fuel with
    | O => still_running
    | S fuel' =>
        c <- get checks ;;
        found <- check_stock ;;
        deliver (signals_after_check orc c) ;;
        if found then ret tt
        else
          t <- now ;;
          lh <- get last_heartbeat ;;
          match lh with
          | Some l =>
              interval <- timedelta_hours (HEARTBEAT_HOURS cfg) ;;
              if t - l >? interval then send_heartbeat else ret tt
          | None => raise (mkExn TypeError "unsupported operand type(s) for -")
          end ;;
          sleep (POLL_INTERVAL cfg) ;;
          deliver (signals_in_sleep orc c) ;;
          main_loop fuel'
    end
  else ret tt.

(** [main()] *)
Definition main (fuel : nat) : M unit :=
  emit (Log INFO "Starting Microcenter Stock Checker loop") ;;
  start_time <- now ;;
  modify (set_last_heartbeat (Some start_time)) ;;
  send_push
    ("Microcenter Stock Checker service has started successfully." ++ nl ++
     "Click to view the monitored product.")
    "Service Started" (PRODUCT_URL cfg) ;;
  send_email
    "Microcenter Stock Checker Service Started"
    ("The Microcenter Stock Checker service has started successfully." ++ nl ++
     "Monitoring the following product:")
    (PRODUCT_URL cfg) ;;
  try_finally
    (try_except (main_loop fuel) [KeyboardInterrupt]
       (fun _ => emit (Log INFO "Received keyboard interrupt, stopping...")))
    (emit (Log INFO "Microcenter Stock Checker stopped") ;;
     send_push
       ("Microcenter Stock Checker service has stopped." ++ nl ++
        "Monitoring is no longer active.")
       "Service Stopped" (PRODUCT_URL cfg) ;;
     send_email
       "Microcenter Stock Checker Service Stopped"
       ("The Microcenter Stock Checker service has stopped." ++ nl ++
        "Monitoring is no longer active.")
       (PRODUCT_URL cfg)).

End Program.

(** ** Reading a trace *)

(** The calls of the two notifiers, in order. *)
Definition is_call (e : event) : bool :=
  match e with
  | CallPush _ _ _ | CallEmail _ _ _ => true
  | _ => false
  end.

Definition notifications (l : list event) : list event := filter is_call l.

(** What a notifier emits after the mark of its call: log lines and the
    traffic of its channel. *)
Definition is_channel_traffic (e : event) : bool :=
  match e with
  | Log _ _ | Post _ _ _ | SmtpConnect _ _ | StartTLS | Login _ _
  | Sendmail _ _ _ | SmtpQuit => true
  | _ => false
  end.

Definition is_launch (e : event) : bool :=
  match e with ChromeNew _ => true | _ => false end.

Definition is_sleep (e : event) : bool :=
  match e with Sleep _ => true | _ => false end.

Definition push_titled (t : string) (e : event) : bool :=
  match e with CallPush _ t' _ => String.eqb t t' | _ => false end.

Definition email_titled (s : string) (e : event) : bool :=
  match e with CallEmail s' _ _ => String.eqb s s' | _ => false end.

Definition count (p : event -> bool) (l : list event) : nat :=
  length (filter p l).

(** The globals and the two cursors that the notifiers leave alone. *)
Definition globals (w : World) : bool * Z * option Z * nat * nat :=
  (running w, consecutive_failures w, last_heartbeat w, clock_reads w, checks w).

(** The transport errors of the two channels: [requests] reports a failed
    exchange as a [RequestException]; [smtplib] and the socket under it
    raise [SMTPException] or [OSError]. *)
Definition push_transport_error (e : exn) : bool :=
  issubclass (class_of e) RequestException.
Definition email_transport_error (e : exn) : bool :=
  issubclass (class_of e) SMTPException || issubclass (class_of e) OSError.

(** Whatever the two channels raise is a transport error. *)
Definition transport_errors_only (orc : Oracle) : Prop :=
  (forall n e, post_at orc n = Some e -> push_transport_error e = true) /\
  (forall n s e, smtp_at orc n s = Some e -> email_transport_error e = true).

(** The first driver call of check [c] that raises, or the page. *)
Definition fetch_result (orc : Oracle) (c : nat) : exn + string :=
  match fetch_at orc c AtHome with
  | Some e => inl e
  | None =>
  match fetch_at orc c AtCookie with
  | Some e => inl e
  | None =>
  match fetch_at orc c AtProduct with
  | Some e => inl e
  | None =>
  match fetch_at orc c AtSource with
  | Some e => inl e
  | None => inr (page_at orc c)
  end end end end.

(** The fetch errors [check_stock] handles. *)
Definition fetch_error (e : exn) : bool :=
  caught_by [WebDriverException; TimeoutError] e.

(** ** The notifiers *)

Arguments caught_by classes e : simpl never.
Arguments PyStr.contains needle hay : simpl never.
Arguments PyStr.of_int z : simpl never.
Arguments String.append s1 s2 : simpl never.

Lemma filter_channel_traffic (p : event -> bool) (l : list event) :
  (forall e, is_channel_traffic e = true -> p e = false) ->
  forallb is_channel_traffic l = true -> filter p l = [].
Proof.
  intros Hp. induction l as [|e l IH]; simpl; intros H; [reflexivity|].
  apply andb_true_iff in H as [He Hl].
  rewrite (Hp e He). auto.
Qed.

Lemma caught_push (e : exn) :
  push_transport_error e = true -> caught_by [RequestException] e = true.
Proof. unfold caught_by, push_transport_error. simpl. intros ->. reflexivity. Qed.

Lemma caught_email (e : exn) :
  email_transport_error e = true -> caught_by [SMTPException; OSError] e = true.
Proof.
  unfold caught_by, email_transport_error. simpl. intros H.
  rewrite orb_false_r. exact H.
Qed.

Section Notifiers.

Variable orc : Oracle.

(** [send_push] returns, touches no global, and emits its call mark followed
    by channel traffic only. *)
Lemma send_push_run (message title : string) (url : option string) (w : World) :
  (forall e, post_at orc (posts w) = Some e -> push_transport_error e = true) ->
  exists w' rest,
    send_push orc message title url w =
      mkOut (Ret tt) w' (CallPush message title url :: rest) /\
    globals w' = globals w /\
    forallb is_channel_traffic rest = true.
Proof.
  intros H. unfold send_push, bind, emit. simpl.
  destruct (truthy (getenv orc "PUSHOVER_TOKEN")); simpl;
    [destruct (truthy (getenv orc "PUSHOVER_USER")); simpl|];
    try (eexists _, _; repeat split; reflexivity).
  unfold try_except, bind, extcall, bind, emit, get, modify, ret, raise. simpl.
  destruct (post_at orc (posts w)) as [e|] eqn:E; simpl.
  - rewrite (caught_push e (H e eq_refl)). simpl.
    eexists _, _; repeat split; reflexivity.
  - eexists _, _; repeat split; reflexivity.
Qed.

(** The same for [send_email]. *)
Lemma send_email_run (subject body : string) (url : option string) (w : World) :
  (forall s e, smtp_at orc (smtp_sessions w) s = Some e ->
               email_transport_error e = true) ->
  exists w' rest,
    send_email orc subject body url w =
      mkOut (Ret tt) w' (CallEmail subject body url :: rest) /\
    globals w' = globals w /\
    forallb is_channel_traffic rest = true.
Proof.
  intros H. unfold send_email, bind, emit. simpl.
  match goal with
  | |- context [if negb ?b then _ else _] => destruct b
  end; simpl; try (eexists _, _; repeat split; reflexivity).
  unfold try_except, try_finally, bind, extcall, bind, emit, get, modify, ret,
    raise. simpl.
  pose proof (fun s e E => caught_email e (H s e E)) as C.
  destruct (smtp_at orc (smtp_sessions w) AtConnect) as [e|] eqn:E1; simpl;
    [rewrite (C _ _ E1); simpl; eexists _, _; repeat split; reflexivity|].
  destruct (smtp_at orc (smtp_sessions w) AtQuit) as [q|] eqn:EQ;
  destruct (smtp_at orc (smtp_sessions w) AtStartTLS) as [e|] eqn:E2; simpl;
    try (rewrite (C _ _ EQ)); try (rewrite (C _ _ E2)); simpl;
    try (eexists _, _; repeat split; reflexivity);
  destruct (smtp_at orc (smtp_sessions w) AtLogin) as [e|] eqn:E3; simpl;
    try (rewrite (C _ _ EQ)); try (rewrite (C _ _ E3)); simpl;
    try (eexists _, _; repeat split; reflexivity);
  destruct (smtp_at orc (smtp_sessions w) AtSendmail) as [e|] eqn:E4; simpl;
    try (rewrite (C _ _ EQ)); try (rewrite (C _ _ E4)); simpl;
    try (eexists _, _; repeat split; reflexivity).
Qed.

End Notifiers.

(** ** One check *)

(** The calls the two failure branches of [check_stock] make when the
    counter has become [n]. *)
Definition unknown_alert (cfg : Config) (n : Z) : list event :=
  if n >=? MAX_RETRIES cfg then
    [CallPush ("Stock check returned unknown status " ++ PyStr.of_int n ++
               " times in a row." ++ PyStr.nl ++ "Click to verify manually.")
              "Checker Error" (PRODUCT_URL cfg);
     CallEmail "Stock Checker Error"
               ("Unknown stock status detected " ++ PyStr.of_int n ++
                " times in a row." ++ PyStr.nl ++
                "Please verify manually using the link below.")
               (PRODUCT_URL cfg)]
  else [].

Definition exception_alert (cfg : Config) (e : exn) (n : Z) : list event :=
  if n >=? MAX_RETRIES cfg then
    [CallPush ("Checker failed " ++ PyStr.of_int n ++ " times in a row: " ++
               str_of e ++ PyStr.nl ++ "Click to check manually.")
              "Checker Exception" (PRODUCT_URL cfg);
     CallEmail "Stock Checker Exception"
               ("The stock checker encountered " ++ PyStr.of_int n ++
                " consecutive errors:" ++ PyStr.nl ++ str_of e ++ PyStr.nl ++
                PyStr.nl ++ "Please check manually using the link below.")
               (PRODUCT_URL cfg)]
  else [].

Definition in_stock_alert (cfg : Config) : list event :=
  [CallPush "Product is in stock! Click to view the product page."
            "In Stock" (PRODUCT_URL cfg);
   CallEmail "Product In Stock"
     "Your product is now available! Click the link below to view the product page."
     (PRODUCT_URL cfg)].

(** Symbolic execution of the next [send_push] / [send_email] of the goal,
    given [H : transport_errors_only orc]. *)
Ltac step_push H :=
  match goal with
  | |- context [send_push ?o ?m ?t ?u ?w] =>
      let w' := fresh "w" in
      let rest := fresh "sent" in
      let E := fresh "E" in
      let G := fresh "G" in
      let T := fresh "T" in
      destruct (send_push_run o m t u w (fun e => proj1 H (posts w) e))
        as (w' & rest & E & G & T);
      rewrite E; clear E; simpl
  end.

Ltac step_email H :=
  match goal with
  | |- context [send_email ?o ?m ?t ?u ?w] =>
      let w' := fresh "w" in
      let rest := fresh "sent" in
      let E := fresh "E" in
      let G := fresh "G" in
      let T := fresh "T" in
      destruct (send_email_run o m t u w (fun s e => proj2 H (smtp_sessions w) s e))
        as (w' & rest & E & G & T);
      rewrite E; clear E; simpl
  end.

(** Equalities between [globals] as equalities between their fields. *)
Ltac split_globals :=
  unfold globals in *; simpl in *;
  repeat match goal with
         | H : (_, _) = (_, _) |- _ => inversion H; clear H
         end.

(** Filters over a trace built from known events and notifier traffic. *)
Ltac trace_facts :=
  unfold notifications, count in *; simpl;
  repeat (rewrite filter_app; simpl);
  repeat match goal with
         | T : forallb is_channel_traffic ?l = true |- context [filter ?p ?l] =>
             rewrite (filter_channel_traffic p l)
               by (first [ exact T | intros [] ?; simpl in *; congruence ])
         | H : filter ?p ?l = _ |- context [filter ?p ?l] => rewrite H
         end;
  simpl; rewrite ?app_nil_r; try reflexivity; try congruence.

(** What one call of [check_stock] has done. *)
Definition check_summary (cfg : Config) (orc : Oracle) (w : World)
                         (o : Outcome bool) : Prop :=
  running (world o) = running w /\
  last_heartbeat (world o) = last_heartbeat w /\
  clock_reads (world o) = clock_reads w /\
  checks (world o) = S (checks w) /\
  count is_launch (out o) = 1%nat /\
  match fetch_result orc (checks w) with
  | inr page =>
      if PyStr.contains IN_STOCK_MARKER page then
        res o = Ret true /\ consecutive_failures (world o) = 0 /\
        notifications (out o) = in_stock_alert cfg /\
        In (Log INFO "Status: In Stock!") (out o)
      else if PyStr.contains OUT_OF_STOCK_MARKER page then
        res o = Ret false /\ consecutive_failures (world o) = 0 /\
        notifications (out o) = [] /\
        In (Log INFO "Status: Out of Stock") (out o)
      else
        res o = Ret false /\
        consecutive_failures (world o) = consecutive_failures w + 1 /\
        notifications (out o) = unknown_alert cfg (consecutive_failures w + 1) /\
        In (Log WARNING ("Status: Unknown (Failure #" ++
                         PyStr.of_int (consecutive_failures w + 1) ++ ")"))
           (out o)
  | inl e =>
      if fetch_error e then
        res o = Ret false /\
        consecutive_failures (world o) = consecutive_failures w + 1 /\
        notifications (out o) = exception_alert cfg e (consecutive_failures w + 1) /\
        In (Log ERROR ("Checker exception: " ++ str_of e ++ " (Failure #" ++
                       PyStr.of_int (consecutive_failures w + 1) ++ ")"))
           (out o)
      else
        res o = Raise e /\
        consecutive_failures (world o) = consecutive_failures w /\
        notifications (out o) = []
  end.

Section OneCheck.

Variable cfg : Config.
Variable orc : Oracle.
Hypothesis transport : transport_errors_only orc.

(** A log line among the first events of a trace. *)
Ltac find_log :=
  simpl; repeat first [left; reflexivity | right].

(** The conjuncts of [check_summary] once the check has been executed. *)
Ltac finish_summary :=
  unfold check_summary; simpl;
  split_globals;
  repeat match goal with
         | |- _ /\ _ => split
         end;
  try congruence;
  lazymatch goal with
  | |- In _ _ => find_log
  | |- _ \/ _ => find_log
  | |- _ => trace_facts
  end.

(** The [except] block counts the failure, logs it, alerts if the count has
    reached [MAX_RETRIES], and falls through. *)
Lemma check_stock_except_run (e : exn) (w : World) :
  exists w' l,
    check_stock_except cfg orc e w =
      mkOut (Ret None) w'
        (Log ERROR ("Checker exception: " ++ str_of e ++ " (Failure #" ++
                    PyStr.of_int (consecutive_failures w + 1) ++ ")") :: l) /\
    globals w' = globals (set_consecutive_failures (consecutive_failures w + 1) w) /\
    notifications l = exception_alert cfg e (consecutive_failures w + 1) /\
    filter is_launch l = [].
Proof.
  unfold check_stock_except, exception_alert.
  unfold bind, emit, get, modify, ret. simpl.
  destruct (consecutive_failures w + 1 >=? MAX_RETRIES cfg); simpl.
  - step_push transport. step_email transport.
    eexists _, _. split; [reflexivity|]. split; [congruence|].
    split; trace_facts.
  - eexists _, _. repeat split; reflexivity.
Qed.

(** Every check whose driver was created does what [check_summary] says. *)
Lemma check_stock_run (w : World) :
  chrome_at orc (checks w) = None ->
  check_summary cfg orc w (check_stock cfg orc w).
Proof.
  intros Hc.
  unfold check_stock, try_finally, try_except, check_stock_try,
    set_store_cookie, bind, extcall, emit, get, modify, ret, raise.
  simpl. rewrite Hc. simpl.
  unfold check_summary, fetch_result, fetch_error.
  destruct (fetch_at orc (checks w) AtHome) as [e|] eqn:F1; simpl.
  { destruct (caught_by [WebDriverException; TimeoutError] e).
    - destruct (check_stock_except_run e (tick_checks w)) as (w' & l & E & G & N & L).
      rewrite E. simpl. finish_summary.
    - finish_summary. }
  destruct (fetch_at orc (checks w) AtCookie) as [e|] eqn:F2; simpl.
  { destruct (caught_by [WebDriverException; TimeoutError] e).
    - destruct (check_stock_except_run e (tick_checks w)) as (w' & l & E & G & N & L).
      rewrite E. simpl. finish_summary.
    - finish_summary. }
  destruct (fetch_at orc (checks w) AtProduct) as [e|] eqn:F3; simpl.
  { destruct (caught_by [WebDriverException; TimeoutError] e).
    - destruct (check_stock_except_run e (tick_checks w)) as (w' & l & E & G & N & L).
      rewrite E. simpl. finish_summary.
    - finish_summary. }
  destruct (fetch_at orc (checks w) AtSource) as [e|] eqn:F4; simpl.
  { destruct (caught_by [WebDriverException; TimeoutError] e).
    - destruct (check_stock_except_run e (tick_checks w)) as (w' & l & E & G & N & L).
      rewrite E. simpl. finish_summary.
    - finish_summary. }
  destruct (PyStr.contains IN_STOCK_MARKER (page_at orc (checks w))); simpl.
  { step_push transport. step_email transport. finish_summary. }
  destruct (PyStr.contains OUT_OF_STOCK_MARKER (page_at orc (checks w))); simpl.
  { finish_summary. }
  unfold unknown_alert.
  destruct (consecutive_failures w + 1 >=? MAX_RETRIES cfg); simpl.
  - step_push transport. step_email transport. finish_summary.
  - finish_summary.
Qed.


End OneCheck.

(** ** Substrings *)

Lemma startswith_spec (needle hay : string) :
  PyStr.startswith needle hay = true <-> exists post, hay = needle ++ post.
Proof.
  revert hay. induction needle as [|a n IH]; intros hay; simpl.
  - split; [intros _; exists hay; reflexivity | reflexivity].
  - destruct hay as [|b h]; simpl.
    + split; [discriminate | intros [post H]; discriminate].
    + rewrite andb_true_iff, Ascii.eqb_eq, IH. split.
      * intros [-> [post ->]]. exists post. reflexivity.
      * intros [post H]. injection H as -> ->. split; [reflexivity|].
        exists post. reflexivity.
Qed.

(** [needle in hay] says that [hay] is [pre ++ needle ++ post]. *)
Lemma contains_spec (needle hay : string) :
  PyStr.contains needle hay = true <->
  exists pre post, hay = pre ++ needle ++ post.
Proof.
  induction hay as [|b h IH].
  - unfold PyStr.contains. rewrite orb_false_r, startswith_spec. split.
    + intros [post H]. exists EmptyString, post. exact H.
    + intros [[|c pre] [post H]]; [exists post; exact H | discriminate].
  - change (PyStr.contains needle (String b h))
      with (PyStr.startswith needle (String b h) || PyStr.contains needle h).
    rewrite orb_true_iff, startswith_spec, IH. split.
    + intros [[post H] | [pre [post H]]].
      * exists EmptyString, post. exact H.
      * exists (String b pre), post. simpl. rewrite H. reflexivity.
    + intros [[|c pre] [post H]].
      * left. exists post. exact H.
      * right. simpl in H. injection H as _ H. exists pre, post. exact H.
Qed.

(** ** Stripping *)

Lemma string_of_list_ascii_app (a b : list ascii) :
  string_of_list_ascii (a ++ b) =
  string_of_list_ascii a ++ string_of_list_ascii b.
Proof. induction a as [|c a IH]; simpl; [reflexivity | rewrite IH; reflexivity]. Qed.

Lemma list_ascii_of_string_app (a b : string) :
  list_ascii_of_string (a ++ b) =
  (list_ascii_of_string a ++ list_ascii_of_string b)%list.
Proof. induction a as [|c a IH]; simpl; [reflexivity | rewrite IH; reflexivity]. Qed.

Section Leading.

Variable ps : list (list ascii).

Lemma after_spec (p l r : list ascii) :
  PyStr.after p l = Some r <-> l = (p ++ r)%list.
Proof.
  revert l. induction p as [|a p IH]; intros l; simpl.
  - split; [intros H; injection H as ->; reflexivity | intros ->; reflexivity].
  - destruct l as [|b l]; [split; discriminate|].
    destruct (Ascii.eqb a b) eqn:E.
    + apply Ascii.eqb_eq in E. subst b. rewrite IH.
      split; [intros ->; reflexivity | intros H; injection H as ->; reflexivity].
    + apply Ascii.eqb_neq in E. split; [discriminate|].
      intros H. injection H as -> _. contradiction.
Qed.

Lemma after_any_some (l r : list ascii) :
  PyStr.after_any ps l = Some r -> exists p, In p ps /\ l = (p ++ r)%list.
Proof.
  induction ps as [|p ps' IH]; simpl; [discriminate|].
  destruct (PyStr.after p l) as [x|] eqn:E.
  - intros H. injection H as ->. exists p. split; [left; reflexivity|].
    apply after_spec, E.
  - intros H. destruct (IH H) as (q & Hq & ->). exists q. auto.
Qed.

Lemma after_any_none (l : list ascii) :
  PyStr.after_any ps l = None ->
  forall p r, In p ps -> l <> (p ++ r)%list.
Proof.
  induction ps as [|q ps' IH]; simpl; intros H p r Hp; [contradiction|].
  destruct (PyStr.after q l) as [x|] eqn:E; [discriminate|].
  destruct Hp as [->|Hp]; [|exact (IH H p r Hp)].
  intros ->. rewrite (proj2 (after_spec p (p ++ r) r) eq_refl) in E.
  discriminate.
Qed.

(** What starts with a member of [ps] still does when something is
    appended. *)
Lemma after_any_app (l b : list ascii) :
  PyStr.after_any ps l <> None -> PyStr.after_any ps (l ++ b) <> None.
Proof.
  intros H N. destruct (PyStr.after_any ps l) as [r|] eqn:E; [|congruence].
  destruct (after_any_some l r E) as (p & Hp & ->).
  apply (after_any_none _ N p (r ++ b)%list Hp). symmetry. apply app_assoc.
Qed.

Lemma drop_leading_fixed (n : nat) (l : list ascii) :
  PyStr.after_any ps l = None -> PyStr.drop_leading ps n l = l.
Proof. intros H. destruct n; simpl; [|rewrite H]; reflexivity. Qed.

(** What is left is the end of the list. *)
Lemma drop_leading_suffix (n : nat) (l : list ascii) :
  exists a, l = (a ++ PyStr.drop_leading ps n l)%list.
Proof.
  revert l. induction n as [|n IH]; intros l; simpl; [exists []; reflexivity|].
  destruct (PyStr.after_any ps l) as [r|] eqn:E; [|exists []; reflexivity].
  destruct (after_any_some l r E) as (p & _ & ->).
  destruct (IH r) as [a Ha]. exists (p ++ a)%list.
  rewrite <- app_assoc, <- Ha. reflexivity.
Qed.

Hypothesis ps_nonempty : forall p, In p ps -> p <> [].

(** With as many rounds as the list is long nothing of [ps] is left in
    front. *)
Lemma drop_leading_done (n : nat) (l : list ascii) :
  (List.length l <= n)%nat ->
  PyStr.after_any ps (PyStr.drop_leading ps n l) = None.
Proof.
  revert l. induction n as [|n IH]; intros l Hn; simpl.
  - destruct l; [|simpl in Hn; lia].
    destruct (PyStr.after_any ps []) as [r|] eqn:E; [|reflexivity].
    destruct (after_any_some [] r E) as (p & Hp & Hl).
    destruct p; [exfalso; exact (ps_nonempty [] Hp eq_refl) | discriminate].
  - destruct (PyStr.after_any ps l) as [r|] eqn:E; [|exact E].
    apply IH. destruct (after_any_some l r E) as (p & Hp & ->).
    rewrite length_app in Hn. pose proof (ps_nonempty p Hp).
    destruct p; [contradiction | simpl in Hn; lia].
Qed.

End Leading.

Lemma spaces_nonempty (p : list ascii) : In p PyStr.spaces -> p <> [].
Proof.
  intros H ->. revert H. vm_compute. intuition discriminate.
Qed.

Lemma rev_spaces_nonempty (p : list ascii) :
  In p (map (@rev ascii) PyStr.spaces) -> p <> [].
Proof.
  intros H ->. revert H. vm_compute. intuition discriminate.
Qed.

(** [lstrip] leaves the end of the string and [rstrip] its beginning. *)
Lemma lstrip_suffix (s : string) : exists a, s = a ++ PyStr.lstrip s.
Proof.
  unfold PyStr.lstrip. cbv zeta.
  destruct (drop_leading_suffix PyStr.spaces
              (List.length (list_ascii_of_string s))
              (list_ascii_of_string s)) as [a Ha].
  exists (string_of_list_ascii a).
  rewrite <- string_of_list_ascii_app, <- Ha.
  symmetry. apply string_of_list_ascii_of_string.
Qed.

Lemma rstrip_prefix (s : string) : exists b, s = PyStr.rstrip s ++ b.
Proof.
  unfold PyStr.rstrip. cbv zeta.
  destruct (drop_leading_suffix (map (@rev ascii) PyStr.spaces)
              (List.length (rev (list_ascii_of_string s)))
              (rev (list_ascii_of_string s))) as [a Ha].
  exists (string_of_list_ascii (rev a)).
  rewrite <- string_of_list_ascii_app, <- rev_app_distr, <- Ha, rev_involutive.
  symmetry. apply string_of_list_ascii_of_string.
Qed.

(** A stripped string neither starts nor ends with white space. *)
Lemma lstrip_no_leading_space (s : string) :
  PyStr.leading_space (PyStr.lstrip s) = false.
Proof.
  unfold PyStr.leading_space, PyStr.lstrip. cbv zeta.
  rewrite list_ascii_of_string_of_list_ascii.
  rewrite (drop_leading_done PyStr.spaces spaces_nonempty); auto.
Qed.

Lemma rstrip_no_trailing_space (s : string) :
  PyStr.trailing_space (PyStr.rstrip s) = false.
Proof.
  unfold PyStr.trailing_space, PyStr.rstrip. cbv zeta.
  rewrite list_ascii_of_string_of_list_ascii, rev_involutive.
  rewrite (drop_leading_done _ rev_spaces_nonempty); auto.
Qed.

Lemma rstrip_keeps_no_leading_space (s : string) :
  PyStr.leading_space s = false ->
  PyStr.leading_space (PyStr.rstrip s) = false.
Proof.
  intros H. destruct (rstrip_prefix s) as [b Hb].
  unfold PyStr.leading_space in *.
  destruct (PyStr.after_any PyStr.spaces
              (list_ascii_of_string (PyStr.rstrip s))) as [r|] eqn:E;
    [|reflexivity].
  exfalso.
  apply (after_any_app PyStr.spaces (list_ascii_of_string (PyStr.rstrip s))
           (list_ascii_of_string b)); [congruence|].
  rewrite <- list_ascii_of_string_app, <- Hb.
  destruct (PyStr.after_any PyStr.spaces (list_ascii_of_string s));
    [discriminate | reflexivity].
Qed.

Lemma strip_is_stripped (s : string) :
  PyStr.leading_space (PyStr.strip s) = false /\
  PyStr.trailing_space (PyStr.strip s) = false.
Proof.
  unfold PyStr.strip. split.
  - apply rstrip_keeps_no_leading_space, lstrip_no_leading_space.
  - apply rstrip_no_trailing_space.
Qed.

(** [strip] changes nothing in a string that neither starts nor ends with
    white space. *)
Lemma strip_stripped (s : string) :
  PyStr.leading_space s = false -> PyStr.trailing_space s = false ->
  PyStr.strip s = s.
Proof.
  intros Hl Ht.
  assert (L : PyStr.lstrip s = s).
  { unfold PyStr.lstrip, PyStr.leading_space in *. cbv zeta.
    rewrite drop_leading_fixed; [apply string_of_list_ascii_of_string|].
    destruct (PyStr.after_any _ _); [discriminate | reflexivity]. }
  unfold PyStr.strip. rewrite L.
  unfold PyStr.rstrip, PyStr.trailing_space in *. cbv zeta.
  rewrite drop_leading_fixed, ?rev_involutive;
    [apply string_of_list_ascii_of_string|].
  destruct (PyStr.after_any _ _); [discriminate | reflexivity].
Qed.

(** A leading blank goes. *)
Lemma strip_after_space (h : string) :
  PyStr.strip (String " "%char h) = PyStr.strip h.
Proof. reflexivity. Qed.


(** ** Results, worlds and traces of composed computations *)

Lemma out_bind {A B} (m : M A) (f : A -> M B) (w : World) :
  out (bind m f w) =
  (out (m w) ++ match res (m w) with
                | Ret a => out (f a (world (m w)))
                | _ => []
                end)%list.
Proof.
  unfold bind. destruct (m w) as [[a|e|] w1 o1]; simpl.
  - destruct (f a w1); reflexivity.
  - rewrite app_nil_r; reflexivity.
  - rewrite app_nil_r; reflexivity.
Qed.

(** Trace properties that hold of the empty trace and of concatenations
    hold of a computation as soon as they hold of its parts. *)
Section Emits.

Variable P : list event -> Prop.
Hypothesis P_nil : P [].
Hypothesis P_app : forall l1 l2, P l1 -> P l2 -> P (l1 ++ l2).

Definition emits {A} (m : M A) : Prop := forall w, P (out (m w)).

Lemma emits_ret {A} (a : A) : emits (ret a).
Proof. intros w. exact P_nil. Qed.

Lemma emits_raise {A} (e : exn) : emits (@raise A e).
Proof. intros w. exact P_nil. Qed.

Lemma emits_still_running {A} : emits (@still_running A).
Proof. intros w. exact P_nil. Qed.

Lemma emits_get {A} (f : World -> A) : emits (get f).
Proof. intros w. exact P_nil. Qed.

Lemma emits_modify (f : World -> World) : emits (modify f).
Proof. intros w. exact P_nil. Qed.

Lemma emits_emit (e : event) : P [e] -> emits (emit e).
Proof. intros H w. exact H. Qed.

Lemma emits_bind {A B} (m : M A) (f : A -> M B) :
  emits m -> (forall a, emits (f a)) -> emits (bind m f).
Proof.
  intros Hm Hf w. rewrite out_bind. apply P_app; [apply Hm|].
  destruct (res (m w)); [apply Hf | apply P_nil | apply P_nil].
Qed.

Lemma emits_extcall (ev : event) (answer : option exn) :
  P [ev] -> emits (extcall ev answer).
Proof.
  intros H. apply emits_bind; [apply emits_emit, H|].
  intros _. destruct answer; [apply emits_raise | apply emits_ret].
Qed.

Lemma emits_try_except {A} (body : M A) (classes : list exn_class)
      (handler : exn -> M A) :
  emits body -> (forall e, emits (handler e)) ->
  emits (try_except body classes handler).
Proof.
  intros Hb Hh w. unfold try_except. specialize (Hb w).
  destruct (body w) as [[a|e|] w1 o1]; simpl in *; try exact Hb.
  destruct (caught_by classes e); [|exact Hb].
  specialize (Hh e w1). destruct (handler e w1); simpl in *.
  apply P_app; assumption.
Qed.

Lemma emits_try_finally {A} (body : M A) (fin : M unit) :
  emits body -> emits fin -> emits (try_finally body fin).
Proof.
  intros Hb Hf w. unfold try_finally. specialize (Hb w).
  destruct (body w) as [[a|e|] w1 o1]; simpl in *; try exact Hb;
    specialize (Hf w1); destruct (fin w1) as [[[]|e'|] w2 o2]; simpl in *;
    apply P_app; assumption.
Qed.

End Emits.

(** The property used most: no event of the trace satisfies [p]. *)
Definition none_of (p : event -> bool) (l : list event) : Prop :=
  filter p l = [].

Lemma none_of_nil (p : event -> bool) : none_of p [].
Proof. reflexivity. Qed.

Lemma none_of_app (p : event -> bool) (l1 l2 : list event) :
  none_of p l1 -> none_of p l2 -> none_of p (l1 ++ l2).
Proof. unfold none_of. intros H1 H2. rewrite filter_app, H1, H2. reflexivity. Qed.

Lemma none_of_one (p : event -> bool) (e : event) :
  p e = false -> none_of p [e].
Proof. unfold none_of. simpl. intros ->. reflexivity. Qed.

(** A computation none of whose events satisfies [p]. *)
Definition quiet (p : event -> bool) {A} (m : M A) : Prop :=
  emits (none_of p) m.

Section Quiet.

Variable p : event -> bool.

Lemma quiet_ret {A} (a : A) : quiet p (ret a).
Proof. apply emits_ret, none_of_nil. Qed.

Lemma quiet_raise {A} (e : exn) : quiet p (@raise A e).
Proof. apply emits_raise, none_of_nil. Qed.

Lemma quiet_still_running {A} : quiet p (@still_running A).
Proof. apply emits_still_running, none_of_nil. Qed.

Lemma quiet_get {A} (f : World -> A) : quiet p (get f).
Proof. apply emits_get, none_of_nil. Qed.

Lemma quiet_modify (f : World -> World) : quiet p (modify f).
Proof. apply emits_modify, none_of_nil. Qed.

Lemma quiet_emit (e : event) : p e = false -> quiet p (emit e).
Proof. intros H. apply emits_emit, none_of_one, H. Qed.

Lemma quiet_extcall (ev : event) (answer : option exn) :
  p ev = false -> quiet p (extcall ev answer).
Proof.
  intros H. apply emits_extcall;
    [apply none_of_nil | apply none_of_app | apply none_of_one, H].
Qed.

Lemma quiet_bind {A B} (m : M A) (f : A -> M B) :
  quiet p m -> (forall a, quiet p (f a)) -> quiet p (bind m f).
Proof. apply emits_bind; [apply none_of_nil | apply none_of_app]. Qed.

Lemma quiet_try_except {A} (body : M A) (classes : list exn_class)
      (handler : exn -> M A) :
  quiet p body -> (forall e, quiet p (handler e)) ->
  quiet p (try_except body classes handler).
Proof. apply emits_try_except, none_of_app. Qed.

Lemma quiet_try_finally {A} (body : M A) (fin : M unit) :
  quiet p body -> quiet p fin -> quiet p (try_finally body fin).
Proof. apply emits_try_finally, none_of_app. Qed.

Lemma quiet_timedelta_hours (h : Z) : quiet p (timedelta_hours h).
Proof.
  unfold timedelta_hours. destruct (_ >? _); [apply quiet_raise | apply quiet_ret].
Qed.

Lemma quiet_sleep (secs : Z) : p (Sleep secs) = false -> quiet p (sleep secs).
Proof.
  intros H. unfold sleep. destruct (secs <? 0);
    [apply quiet_raise | apply quiet_emit, H].
Qed.

Lemma quiet_now (orc : Oracle) : quiet p (now orc).
Proof.
  unfold now. apply quiet_bind; [apply quiet_get | intros n].
  apply quiet_bind; [apply quiet_modify | intros _]. apply quiet_ret.
Qed.

End Quiet.

(** One structural step of a proof that a computation is quiet; what is
    left are the events themselves. *)
Ltac quiet_step :=
  lazymatch goal with
  | |- quiet _ (ret _) => apply quiet_ret
  | |- quiet _ (raise _) => apply quiet_raise
  | |- quiet _ still_running => apply quiet_still_running
  | |- quiet _ (get _) => apply quiet_get
  | |- quiet _ (modify _) => apply quiet_modify
  | |- quiet _ (now _) => apply quiet_now
  | |- quiet _ (timedelta_hours _) => apply quiet_timedelta_hours
  | |- quiet _ (sleep _) => apply quiet_sleep
  | |- quiet _ (emit _) => apply quiet_emit
  | |- quiet _ (extcall _ _) => apply quiet_extcall
  | |- quiet _ (try_except _ _ _) =>
      apply quiet_try_except; [|intros ?; cbv beta]
  | |- quiet _ (try_finally _ _) => apply quiet_try_finally
  | |- quiet _ (bind _ _) => apply quiet_bind; [|intros ?; cbv beta]
  | |- quiet _ (if ?b then _ else _) => destruct b
  | |- quiet _ (match ?x with Some _ => _ | None => _ end) => destruct x
  end.

(** [p] picks none of the log lines and none of the channels' traffic. *)
Definition skips_traffic (p : event -> bool) : Prop :=
  forall e, is_channel_traffic e = true -> p e = false.

Section QuietNotifiers.

Variable p : event -> bool.
Hypothesis p_traffic : skips_traffic p.
Variable orc : Oracle.

Lemma quiet_send_push (message title : string) (url : option string) :
  p (CallPush message title url) = false ->
  quiet p (send_push orc message title url).
Proof.
  intros Hp. unfold send_push.
  repeat quiet_step; first [exact Hp | apply p_traffic; reflexivity].
Qed.

Lemma quiet_send_email (subject body : string) (url : option string) :
  p (CallEmail subject body url) = false ->
  quiet p (send_email orc subject body url).
Proof.
  intros Hp. unfold send_email.
  repeat quiet_step; first [exact Hp | apply p_traffic; reflexivity].
Qed.

End QuietNotifiers.

(** [skips_traffic p] for a concrete [p]. *)
Ltac skips :=
  let e := fresh "e" in
  let H := fresh "H" in
  intros e H; destruct e; simpl in *; first [reflexivity | discriminate H].

Lemma quiet_deliver (p : event -> bool) (cfg : Config) (orc : Oracle) :
  (forall s, quiet p (handle_shutdown cfg orc s)) ->
  forall signums, quiet p (deliver cfg orc signums).
Proof.
  intros H signums. induction signums as [|s rest IH]; simpl.
  - apply quiet_ret.
  - apply quiet_bind; [apply H | intros _; exact IH].
Qed.

(** Structural proof that a part of the program is quiet for a given,
    concrete [p]. *)
Ltac quiet_prog :=
  repeat lazymatch goal with
    | |- quiet _ (send_push _ _ _ _) =>
        apply quiet_send_push; [skips | reflexivity]
    | |- quiet _ (send_email _ _ _ _) =>
        apply quiet_send_email; [skips | reflexivity]
    | |- quiet _ (check_stock _ _) =>
        unfold check_stock, check_stock_try, check_stock_except,
          set_store_cookie
    | |- quiet _ (send_heartbeat _ _) => unfold send_heartbeat
    | |- quiet _ (handle_shutdown _ _ _) => unfold handle_shutdown
    | |- quiet _ (deliver _ _ _) => apply quiet_deliver; intros ?
    | |- quiet _ (main_loop _ _ _) => assumption
    | |- quiet _ _ => quiet_step
    | |- _ = false => reflexivity
    end.

Section QuietProgram.

Variable cfg : Config.
Variable orc : Oracle.

Lemma send_heartbeat_no_launch : quiet is_launch (send_heartbeat cfg orc).
Proof. quiet_prog. Qed.

Lemma send_heartbeat_no_sleep : quiet is_sleep (send_heartbeat cfg orc).
Proof. quiet_prog. Qed.

Lemma main_loop_no_stopped_push (fuel : nat) :
  quiet (push_titled "Service Stopped") (main_loop cfg orc fuel).
Proof. induction fuel as [|fuel IH]; simpl; quiet_prog. Qed.

Lemma main_loop_no_stopped_email (fuel : nat) :
  quiet (email_titled "Microcenter Stock Checker Service Stopped")
        (main_loop cfg orc fuel).
Proof. induction fuel as [|fuel IH]; simpl; quiet_prog. Qed.

End QuietProgram.

(** ** The handler and the heartbeat *)

Definition stopping_push (cfg : Config) : event :=
  CallPush
    ("Microcenter Stock Checker service is shutting down gracefully." ++
     PyStr.nl ++ "Monitoring will stop after current check completes.")
    "Service Stopping" (PRODUCT_URL cfg).

Definition stopping_email (cfg : Config) : event :=
  CallEmail
    "Microcenter Stock Checker Service Stopping"
    ("The Microcenter Stock Checker service is being shut down gracefully." ++
     PyStr.nl ++ "Monitoring will stop after the current check completes.")
    (PRODUCT_URL cfg).

Definition stopping_alert (cfg : Config) : list event :=
  [stopping_push cfg; stopping_email cfg].

(** The text of a heartbeat that reports [uptime] (microseconds) at the
    clock reading [checked]. *)
Definition heartbeat_message (orc : Oracle) (uptime checked : Z) : string :=
  "Microcenter Stock Checker service is running normally." ++ PyStr.nl ++
  "Uptime: " ++ PyStr.of_int (td_days uptime) ++ " days, " ++
  PyStr.of_int (td_seconds uptime / 3600) ++ " hours" ++ PyStr.nl ++
  "Last check: " ++ strftime orc checked.

Definition heartbeat_alert (cfg : Config) (orc : Oracle)
                           (uptime checked : Z) : list event :=
  [CallPush (heartbeat_message orc uptime checked) "Service Heartbeat"
            (PRODUCT_URL cfg);
   CallEmail "Microcenter Stock Checker Service Heartbeat"
             (heartbeat_message orc uptime checked) (PRODUCT_URL cfg)].

Section HandlerAndHeartbeat.

Variable cfg : Config.
Variable orc : Oracle.
Hypothesis transport : transport_errors_only orc.

(** The handler logs, calls both notifiers, then clears [running]. *)
Lemma handle_shutdown_run (signum : Z) (w : World) :
  exists w' text rest,
    handle_shutdown cfg orc signum w =
      mkOut (Ret tt) w' (Log INFO text :: stopping_push cfg :: rest) /\
    globals w' = globals (set_running false w) /\
    notifications rest = [stopping_email cfg] /\
    filter is_launch rest = [] /\ filter is_sleep rest = [].
Proof.
  unfold handle_shutdown, bind, emit, modify. simpl.
  step_push transport. step_email transport.
  eexists _, _, _. split; [reflexivity|].
  split; [split_globals; congruence|].
  repeat split; trace_facts.
Qed.

Lemma deliver_nil (w : World) :
  deliver cfg orc [] w = mkOut (Ret tt) w [].
Proof. reflexivity. Qed.

(** Delivering at least one signal leaves [running] false; the trace starts
    with the handler's log line and its push. *)
Lemma deliver_cons_run (s : Z) (signums : list Z) (w : World) :
  exists w' text rest,
    deliver cfg orc (s :: signums) w =
      mkOut (Ret tt) w' (Log INFO text :: stopping_push cfg :: rest) /\
    globals w' = globals (set_running false w) /\
    filter is_launch rest = [] /\ filter is_sleep rest = [].
Proof.
  revert s w. induction signums as [|s' signums IH]; intros s w.
  - simpl. unfold bind.
    destruct (handle_shutdown_run s w) as (w' & text & rest & E & G & _ & L & S).
    rewrite E. simpl. exists w', text, rest. rewrite app_nil_r. auto.
  - change (deliver cfg orc (s :: s' :: signums))
      with (bind (handle_shutdown cfg orc s)
                 (fun _ => deliver cfg orc (s' :: signums))).
    unfold bind.
    destruct (handle_shutdown_run s w) as (w1 & text & rest & E & G & _ & L & S).
    rewrite E.
    destruct (IH s' w1) as (w2 & text2 & rest2 & E2 & G2 & L2 & S2).
    rewrite E2. simpl. eexists _, _, _. split; [reflexivity|].
    split; [split_globals; congruence|].
    split; trace_facts.
Qed.

(** [send_heartbeat] reports the time since [last_heartbeat], then moves
    [last_heartbeat] to its third reading of the clock. *)
Lemma send_heartbeat_run (w : World) (l : Z) :
  last_heartbeat w = Some l ->
  exists w' sent,
    send_heartbeat cfg orc w = mkOut (Ret tt) w' sent /\
    running w' = running w /\
    consecutive_failures w' = consecutive_failures w /\
    checks w' = checks w /\
    clock_reads w' = (3 + clock_reads w)%nat /\
    last_heartbeat w' = Some (now_at orc (2 + clock_reads w)) /\
    notifications sent =
      heartbeat_alert cfg orc (now_at orc (clock_reads w) - l)
                      (now_at orc (1 + clock_reads w)).
Proof.
  intros Hl. unfold send_heartbeat, now, bind, get, modify, ret. simpl.
  rewrite Hl. simpl.
  step_push transport. step_email transport.
  eexists _, _. split; [reflexivity|].
  split_globals. simpl.
  repeat split; try congruence.
  unfold heartbeat_alert, heartbeat_message. trace_facts.
Qed.

End HandlerAndHeartbeat.

(** ** Several checks in a row *)

(** [check_stock()] called [n] times, as [test_consecutive_failures] does. *)
Fixpoint run_checks (cfg : Config) (orc : Oracle) (n : nat) : M unit :=
  match n with
  | O => ret tt
  | S n' => check_stock cfg orc ;; run_checks cfg orc n'
  end.

(** Check number [c] has a driver and ends without a verdict: its page has
    neither marker, or the fetch raises an error that [check_stock]
    handles. *)
Definition failing_check (orc : Oracle) (c : nat) : Prop :=
  chrome_at orc c = None /\
  match fetch_result orc c with
  | inr page => PyStr.contains IN_STOCK_MARKER page = false /\
                PyStr.contains OUT_OF_STOCK_MARKER page = false
  | inl e => fetch_error e = true
  end.

(** The error notifications of the two failure branches. *)
Definition error_push (e : event) : bool :=
  push_titled "Checker Error" e || push_titled "Checker Exception" e.
Definition error_email (e : event) : bool :=
  email_titled "Stock Checker Error" e || email_titled "Stock Checker Exception" e.

Lemma filter_calls (p : event -> bool) (l : list event) :
  (forall e, p e = true -> is_call e = true) ->
  filter p l = filter p (notifications l).
Proof.
  intros Hp. unfold notifications. induction l as [|e l IH]; simpl; [reflexivity|].
  destruct (p e) eqn:E.
  - rewrite (Hp e E). simpl. rewrite E, IH. reflexivity.
  - destruct (is_call e); simpl; [rewrite E|]; exact IH.
Qed.

Lemma error_push_is_call (e : event) : error_push e = true -> is_call e = true.
Proof. destruct e; simpl; auto. Qed.

Lemma error_email_is_call (e : event) : error_email e = true -> is_call e = true.
Proof. destruct e; simpl; auto. Qed.

Section ConsecutiveFailures.

Variable cfg : Config.
Variable orc : Oracle.
Hypothesis transport : transport_errors_only orc.

(** What a failing check does to the counter and which alert it sends. *)
Lemma failing_check_run (w : World) :
  failing_check orc (checks w) ->
  let o := check_stock cfg orc w in
  res o = Ret false /\
  checks (world o) = S (checks w) /\
  consecutive_failures (world o) = consecutive_failures w + 1 /\
  count error_push (out o) =
    (if consecutive_failures w + 1 >=? MAX_RETRIES cfg then 1 else 0)%nat /\
  count error_email (out o) =
    (if consecutive_failures w + 1 >=? MAX_RETRIES cfg then 1 else 0)%nat.
Proof.
  intros [Hc Hf] o.
  destruct (check_stock_run cfg orc transport w Hc)
    as (_ & _ & _ & Hk & _ & H).
  fold o in Hk, H. unfold count.
  rewrite (filter_calls error_push _ error_push_is_call).
  rewrite (filter_calls error_email _ error_email_is_call).
  destruct (fetch_result orc (checks w)) as [e|page].
  - rewrite Hf in H. destruct H as (Hr & Hn & Ha & _). rewrite Ha.
    unfold exception_alert.
    destruct (consecutive_failures w + 1 >=? MAX_RETRIES cfg); auto.
  - destruct Hf as [Hi Ho]. rewrite Hi, Ho in H.
    destruct H as (Hr & Hn & Ha & _). rewrite Ha.
    unfold unknown_alert.
    destruct (consecutive_failures w + 1 >=? MAX_RETRIES cfg); auto.
Qed.

(** [k] failing checks in a row have counted to [k] more. *)
Lemma run_checks_failing (k : nat) (w : World) :
  (forall i, (i < k)%nat -> failing_check orc (checks w + i)) ->
  let o := run_checks cfg orc k w in
  res o = Ret tt /\
  checks (world o) = (checks w + k)%nat /\
  consecutive_failures (world o) = consecutive_failures w + Z.of_nat k.
Proof.
  revert w. induction k as [|k IH]; intros w Hall; simpl.
  - repeat split; [lia | lia].
  - assert (H0 : failing_check orc (checks w)).
    { replace (checks w) with (checks w + 0)%nat by lia. apply Hall. lia. }
    destruct (failing_check_run w H0) as (Hr & Hk & Hn & _).
    unfold bind.
    destruct (check_stock cfg orc w) as [r w1 l1]. simpl in *. subst r.
    assert (Hall1 : forall i, (i < k)%nat -> failing_check orc (checks w1 + i)).
    { intros i Hi. rewrite Hk.
      replace (S (checks w) + i)%nat with (checks w + S i)%nat by lia.
      apply Hall. lia. }
    destruct (IH w1 Hall1) as (Hr' & Hk' & Hn').
    destruct (run_checks cfg orc k w1) as [r2 w2 l2]. simpl in *.
    repeat split; [exact Hr' | lia | lia].
Qed.

End ConsecutiveFailures.

(** ** The loop *)

(** The heartbeat test of the loop, for the clock reading [t] and the
    value [lh] of [last_heartbeat]. *)
Definition heartbeat_if_due (cfg : Config) (orc : Oracle) (t : Z)
                            (lh : option Z) : M unit :=
  match lh with
  | Some l =>
      interval <- timedelta_hours (HEARTBEAT_HOURS cfg) ;;
      if t - l >? interval then send_heartbeat cfg orc else ret tt
  | None => raise (mkExn TypeError "unsupported operand type(s) for -")
  end.

(** [timedelta] accepts the heartbeat interval of the configuration. *)
Definition heartbeat_interval_ok (cfg : Config) : Prop :=
  Z.abs (td_days (HEARTBEAT_HOURS cfg * 3600 * 1000000)) <= MAX_DELTA_DAYS.

(** What follows a check that returned [False]: heartbeat test, sleep, and
    the rest of the loop. *)
Definition rest_of_iteration (cfg : Config) (orc : Oracle) (fuel : nat)
                             (c : nat) : M unit :=
  t <- now orc ;;
  lh <- get last_heartbeat ;;
  heartbeat_if_due cfg orc t lh ;;
  sleep (POLL_INTERVAL cfg) ;;
  deliver cfg orc (signals_in_sleep orc c) ;;
  main_loop cfg orc fuel.

(** The body of [while running:] for the check numbered [c], followed by the
    rest of the loop. *)
Definition iteration (cfg : Config) (orc : Oracle) (fuel : nat) (c : nat)
  : M unit :=
  found <- check_stock cfg orc ;;
  deliver cfg orc (signals_after_check orc c) ;;
  if found then ret tt else rest_of_iteration cfg orc fuel c.

(** The events after the first [Service Stopping] push, that is, after the
    first run of the signal handler has begun. *)
Fixpoint after_shutdown (l : list event) : list event :=
  match l with
  | [] => []
  | e :: rest =>
      if push_titled "Service Stopping" e then rest else after_shutdown rest
  end.

Section Loop.

Variable cfg : Config.
Variable orc : Oracle.

(** With [running] false the loop ends at its test, having done nothing. *)
Lemma main_loop_stopped (fuel : nat) (w : World) :
  running w = false -> main_loop cfg orc fuel w = mkOut (Ret tt) w [].
Proof.
  intros H. destruct fuel; simpl; unfold bind, get; simpl; rewrite H;
    reflexivity.
Qed.

Lemma main_loop_out_of_fuel (w : World) :
  running w = true -> main_loop cfg orc 0 w = mkOut Running w [].
Proof. intros H. simpl. unfold bind, get. simpl. rewrite H. reflexivity. Qed.

(** With [running] true it runs one iteration. *)
Lemma main_loop_step (fuel : nat) (w : World) :
  running w = true ->
  main_loop cfg orc (S fuel) w = iteration cfg orc fuel (checks w) w.
Proof.
  intros H.
  change (main_loop cfg orc (S fuel))
    with (r <- get running ;;
          if r then (c <- get checks ;; iteration cfg orc fuel c)
          else ret tt).
  unfold bind at 1, get at 1. simpl. rewrite H.
  unfold bind at 1, get at 1. simpl.
  destruct (iteration cfg orc fuel (checks w) w). reflexivity.
Qed.

Hypothesis transport : transport_errors_only orc.

(** Delivering signals returns; it clears [running] if there was one and
    touches nothing else. *)
Lemma deliver_run (signums : list Z) (w : World) :
  exists w' l,
    deliver cfg orc signums w = mkOut (Ret tt) w' l /\
    globals w' =
      globals (match signums with [] => w | _ => set_running false w end) /\
    filter is_launch l = [] /\ filter is_sleep l = [] /\
    match signums with
    | [] => l = []
    | _ => exists text rest, l = Log INFO text :: stopping_push cfg :: rest
    end.
Proof.
  destruct signums as [|s signums].
  - exists w, []. repeat split; reflexivity.
  - destruct (deliver_cons_run cfg orc transport s signums w)
      as (w' & text & rest & E & G & L & S).
    exists w', (Log INFO text :: stopping_push cfg :: rest).
    repeat split; auto. exists text, rest. reflexivity.
Qed.

Lemma heartbeat_if_due_eq (t l : Z) (w : World) :
  heartbeat_if_due cfg orc t (Some l) w =
  if Z.abs (td_days (HEARTBEAT_HOURS cfg * 3600 * 1000000)) >? MAX_DELTA_DAYS
  then mkOut (Raise (mkExn OverflowError
                       "days; must have magnitude <= 999999999")) w []
  else if t - l >? HEARTBEAT_HOURS cfg * 3600 * 1000000
       then send_heartbeat cfg orc w
       else mkOut (Ret tt) w [].
Proof.
  unfold heartbeat_if_due, timedelta_hours, bind, raise, ret.
  destruct (Z.abs _ >? MAX_DELTA_DAYS); simpl; [reflexivity|].
  destruct (t - l >? _); [|reflexivity].
  destruct (send_heartbeat cfg orc w); reflexivity.
Qed.

(** The heartbeat test touches neither [running] nor the counters, and with
    [last_heartbeat] set and an interval that [timedelta] accepts it returns
    and leaves [last_heartbeat] set. *)
Lemma heartbeat_if_due_run (t : Z) (w : World) :
  let o := heartbeat_if_due cfg orc t (last_heartbeat w) w in
  running (world o) = running w /\
  consecutive_failures (world o) = consecutive_failures w /\
  checks (world o) = checks w /\
  (last_heartbeat w <> None -> heartbeat_interval_ok cfg ->
   res o = Ret tt /\ last_heartbeat (world o) <> None).
Proof.
  unfold heartbeat_interval_ok.
  destruct (last_heartbeat w) as [l|] eqn:Hl.
  - rewrite (heartbeat_if_due_eq t l w).
    destruct (Z.abs _ >? MAX_DELTA_DAYS) eqn:Hd; simpl.
    { repeat split; auto; exfalso; apply Z.gtb_lt in Hd; lia. }
    destruct (t - l >? HEARTBEAT_HOURS cfg * 3600 * 1000000).
    + destruct (send_heartbeat_run cfg orc transport w l Hl)
        as (w' & sent & E & Hr & Hc & Hk & _ & Hh & _).
      rewrite E. simpl. rewrite Hh. repeat split; auto; discriminate.
    + simpl. rewrite Hl. repeat split; auto; discriminate.
  - simpl. split; [|split; [|split]]; auto. intros N. exfalso. apply N.
    reflexivity.
Qed.

Lemma heartbeat_if_due_quiet (p : event -> bool) (t : Z) (lh : option Z) :
  quiet p (send_heartbeat cfg orc) -> quiet p (heartbeat_if_due cfg orc t lh).
Proof.
  intros H. unfold heartbeat_if_due. destruct lh as [l|]; [|apply quiet_raise].
  apply quiet_bind; [apply quiet_timedelta_hours|]. intros interval.
  destruct (t - l >? interval); [exact H | apply quiet_ret].
Qed.

End Loop.

(** ** [main] *)

Definition start_alert (cfg : Config) : list event :=
  [CallPush
     ("Microcenter Stock Checker service has started successfully." ++
      PyStr.nl ++ "Click to view the monitored product.")
     "Service Started" (PRODUCT_URL cfg);
   CallEmail
     "Microcenter Stock Checker Service Started"
     ("The Microcenter Stock Checker service has started successfully." ++
      PyStr.nl ++ "Monitoring the following product:")
     (PRODUCT_URL cfg)].

Definition stopped_alert (cfg : Config) : list event :=
  [CallPush
     ("Microcenter Stock Checker service has stopped." ++ PyStr.nl ++
      "Monitoring is no longer active.")
     "Service Stopped" (PRODUCT_URL cfg);
   CallEmail
     "Microcenter Stock Checker Service Stopped"
     ("The Microcenter Stock Checker service has stopped." ++ PyStr.nl ++
      "Monitoring is no longer active.")
     (PRODUCT_URL cfg)].

(** How [main] passes on the way its loop ended: a [KeyboardInterrupt] is
    caught, any other exception goes through. *)
Definition after_except (r : result unit) : result unit :=
  match r with
  | Raise e => if caught_by [KeyboardInterrupt] e then Ret tt else Raise e
  | _ => r
  end.

Lemma start_loop_stop (a b c : event) (s1 s2 mid tl : list event) :
  a :: b :: s1 ++ c :: s2 ++ mid ++ tl =
  ((a :: b :: s1 ++ c :: s2) ++ mid ++ tl)%list.
Proof. simpl. rewrite <- app_assoc. reflexivity. Qed.

Section Main.

Variable cfg : Config.
Variable orc : Oracle.

(** A check begins by creating the driver. *)
Lemma check_stock_launches (w : World) :
  exists rest,
    out (check_stock cfg orc w) =
    ChromeNew ["--headless"; "--disable-gpu"; "--no-sandbox"] :: rest.
Proof.
  unfold check_stock. rewrite out_bind. simpl. rewrite out_bind. simpl.
  rewrite out_bind. unfold extcall at 1. rewrite out_bind. simpl.
  eexists. reflexivity.
Qed.

(** When the driver cannot be created its exception leaves [check_stock]:
    the call is made before the [try]. *)
Lemma check_stock_no_driver (w : World) (e : exn) :
  chrome_at orc (checks w) = Some e ->
  check_stock cfg orc w =
    mkOut (Raise e) (tick_checks w)
          [ChromeNew ["--headless"; "--disable-gpu"; "--no-sandbox"]].
Proof.
  intros H. unfold check_stock, bind, get, modify, extcall, bind, emit, raise.
  simpl. rewrite H. reflexivity.
Qed.

Hypothesis transport : transport_errors_only orc.

(** [main] is: the start notifications, the loop, and, unless the loop is
    still going, the stop notifications. *)
Lemma main_inv (fuel : nat) (w w' : World) (r : result unit) (l : list event) :
  main cfg orc fuel w = mkOut r w' l ->
  exists w1 l0 r2 w2 l2 l3,
    main_loop cfg orc fuel w1 = mkOut r2 w2 l2 /\
    globals w1 =
      globals (set_last_heartbeat (Some (now_at orc (clock_reads w)))
                                  (tick_clock w)) /\
    l = (l0 ++ l2 ++ l3)%list /\
    notifications l0 = start_alert cfg /\
    filter is_launch l0 = [] /\
    match r2 with
    | Running => r = Running /\ l3 = []
    | _ => r = after_except r2 /\ notifications l3 = stopped_alert cfg
    end.
Proof.
  unfold main, now.
  unfold bind at 1 2 3 4 5 6 7, emit, get, modify, ret. simpl.
  step_push transport. step_email transport.
  unfold try_finally, try_except.
  destruct (main_loop cfg orc fuel w1) as [[[]|e|] w2 l2] eqn:EL; simpl.
  - unfold bind, emit. simpl. step_push transport. step_email transport.
    intros E; injection E as <- _ El.
    eexists w1, _, _, w2, l2, _. split; [exact EL|].
    split; [split_globals; congruence|].
    split; [rewrite <- El; apply start_loop_stop|].
    repeat split; trace_facts.
  - destruct (caught_by [KeyboardInterrupt] e) eqn:EK; simpl;
      unfold bind, emit; simpl; step_push transport; step_email transport;
      intros E; injection E as <- _ El;
      rewrite <- ?app_assoc in El; simpl in El;
      (eexists w1, _, _, w2, l2, _; split; [exact EL|];
       split; [split_globals; congruence|];
       split; [rewrite <- El; apply start_loop_stop|];
       simpl; rewrite ?EK; repeat split; trace_facts).
  - intros E; injection E as <- _ El.
    rewrite <- (app_nil_r l2) in El.
    eexists w1, _, _, w2, l2, []. split; [exact EL|].
    split; [split_globals; congruence|].
    split; [rewrite <- El; apply start_loop_stop|].
    repeat split; trace_facts.
Qed.

End Main.

(** ** The result of a check *)

(** Check number [c] ends with the exception [e]: the browser cannot be
    started, or a driver call raises an exception that is neither a
    [WebDriverException] nor a [TimeoutError]. *)
Definition escapes (orc : Oracle) (c : nat) (e : exn) : Prop :=
  chrome_at orc c = Some e \/
  (chrome_at orc c = None /\ fetch_result orc c = inl e /\
   fetch_error e = false).

Section ResultOfACheck.

Variable cfg : Config.
Variable orc : Oracle.
Hypothesis transport : transport_errors_only orc.

(** What [check_stock] returns or raises, from what the browser does. *)
Lemma check_stock_result (w : World) :
  res (check_stock cfg orc w) =
  match chrome_at orc (checks w) with
  | Some e => Raise e
  | None =>
      match fetch_result orc (checks w) with
      | inr page => Ret (PyStr.contains IN_STOCK_MARKER page)
      | inl e => if fetch_error e then Ret false else Raise e
      end
  end.
Proof.
  destruct (chrome_at orc (checks w)) as [e|] eqn:Hc.
  - rewrite (check_stock_no_driver cfg orc w e Hc). reflexivity.
  - destruct (check_stock_run cfg orc transport w Hc)
      as (_ & _ & _ & _ & _ & H).
    destruct (fetch_result orc (checks w)) as [e|page].
    + destruct (fetch_error e); apply H.
    + destruct (PyStr.contains IN_STOCK_MARKER page); [apply H|].
      destruct (PyStr.contains OUT_OF_STOCK_MARKER page); apply H.
Qed.

Lemma check_stock_escapes (w : World) (e : exn) :
  escapes orc (checks w) e ->
  exists w' l,
    check_stock cfg orc w = mkOut (Raise e) w' l /\
    consecutive_failures w' = consecutive_failures w /\
    notifications l = [] /\
    count is_launch l = 1%nat.
Proof.
  intros [Hc|(Hc & Hf & He)].
  - rewrite (check_stock_no_driver cfg orc w e Hc).
    eexists _, _. split; [reflexivity|]. repeat split.
  - destruct (check_stock_run cfg orc transport w Hc)
      as (_ & _ & _ & _ & L & H).
    rewrite Hf, He in H. destruct H as (R & C & N).
    destruct (check_stock cfg orc w) as [r w' l]. simpl in *. subst r.
    exists w', l. auto.
Qed.

End ResultOfACheck.

(** ** Iterations that nothing disturbs *)

(** Check number [c] has a browser, does not find the product in stock and
    lets no exception through, and no signal arrives in its iteration. *)
Definition uneventful (orc : Oracle) (c : nat) : Prop :=
  chrome_at orc c = None /\
  match fetch_result orc c with
  | inr page => PyStr.contains IN_STOCK_MARKER page = false
  | inl e => fetch_error e = true
  end /\
  signals_after_check orc c = [] /\
  signals_in_sleep orc c = [].

(** The two notifications of a heartbeat. *)
Definition is_heartbeat (e : event) : bool :=
  push_titled "Service Heartbeat" e ||
  email_titled "Microcenter Stock Checker Service Heartbeat" e.

Lemma heartbeat_is_call (e : event) : is_heartbeat e = true -> is_call e = true.
Proof. destruct e; simpl; auto. Qed.

Lemma check_stock_no_heartbeat (cfg : Config) (orc : Oracle) :
  quiet is_heartbeat (check_stock cfg orc).
Proof. quiet_prog. Qed.

(** A run of [n] iterations, each one check followed by the sleep of
    [POLL_INTERVAL]. *)
Inductive polled (cfg : Config) : nat -> list event -> Prop :=
| polled_none : polled cfg 0 []
| polled_more (n : nat) (cyc l : list event) :
    count is_launch cyc = 1%nat ->
    polled cfg n l ->
    polled cfg (S n) (cyc ++ Sleep (POLL_INTERVAL cfg) :: l).

Section Undisturbed.

Variable cfg : Config.
Variable orc : Oracle.
Hypothesis transport : transport_errors_only orc.
Hypothesis poll_ok : 0 <= POLL_INTERVAL cfg.
Hypothesis interval_ok : heartbeat_interval_ok cfg.

Lemma uneventful_check (w : World) :
  uneventful orc (checks w) -> res (check_stock cfg orc w) = Ret false.
Proof.
  intros (Hc & Hf & _).
  destruct (check_stock_run cfg orc transport w Hc) as (_ & _ & _ & _ & _ & H).
  destruct (fetch_result orc (checks w)) as [e|page].
  - rewrite Hf in H. apply H.
  - rewrite Hf in H.
    destruct (PyStr.contains OUT_OF_STOCK_MARKER page); apply H.
Qed.

(** An uneventful iteration followed by the rest of the loop: one check,
    the heartbeat if it is due, the sleep. *)
Lemma iteration_goes_on (fuel : nat) (w : World) (l : Z) :
  running w = true ->
  last_heartbeat w = Some l ->
  uneventful orc (checks w) ->
  exists w' l',
    running w' = true /\
    checks w' = S (checks w) /\
    count is_launch l' = 1%nat /\
    (exists cyc, l' = (cyc ++ [Sleep (POLL_INTERVAL cfg)])%list) /\
    (if now_at orc (clock_reads w) - l >? HEARTBEAT_HOURS cfg * 3600 * 1000000
     then filter is_heartbeat l' =
            heartbeat_alert cfg orc (now_at orc (1 + clock_reads w) - l)
                            (now_at orc (2 + clock_reads w)) /\
          last_heartbeat w' = Some (now_at orc (3 + clock_reads w))
     else filter is_heartbeat l' = [] /\ last_heartbeat w' = Some l) /\
    forall r3 w3 l3,
      main_loop cfg orc fuel w' = mkOut r3 w3 l3 ->
      main_loop cfg orc (S fuel) w = mkOut r3 w3 (l' ++ l3).
Proof.
  intros Hr Hl U.
  pose proof (uneventful_check w U) as Hres.
  destruct U as (Hc & _ & S1 & S2).
  rewrite main_loop_step by exact Hr.
  destruct (check_stock_run cfg orc transport w Hc)
    as (R1 & H1 & C1 & K1 & L1 & _).
  pose proof (check_stock_no_heartbeat cfg orc w) as Q1. unfold none_of in Q1.
  unfold iteration, bind at 1.
  destruct (check_stock cfg orc w) as [r1 w1 l1]. simpl in *. subst r1.
  rewrite S1. unfold bind at 1. rewrite deliver_nil.
  unfold rest_of_iteration, now.
  unfold bind at 1 2 3 4 5, get, modify, ret. simpl.
  rewrite H1, Hl, heartbeat_if_due_eq.
  unfold heartbeat_interval_ok in interval_ok.
  destruct (Z.abs _ >? MAX_DELTA_DAYS) eqn:Hd; [lia|]. rewrite C1.
  destruct (now_at orc (clock_reads w) - l >?
            HEARTBEAT_HOURS cfg * 3600 * 1000000).
  - destruct (send_heartbeat_run cfg orc transport (tick_clock w1) l)
      as (wb & sent & E & Rb & _ & Kb & Cb & Lb & Nb);
      [simpl; congruence|].
    pose proof (send_heartbeat_no_launch cfg orc (tick_clock w1)) as QL.
    unfold none_of in QL. rewrite E in *. simpl in *.
    rewrite S2. unfold bind at 1, sleep, emit.
    destruct (POLL_INTERVAL cfg <? 0) eqn:Ep; [lia|].
    unfold bind at 1. rewrite deliver_nil.
    exists wb, (l1 ++ sent ++ [Sleep (POLL_INTERVAL cfg)])%list.
    split; [congruence|]. split; [congruence|].
    split; [|split; [|split; [split|]]].
    + unfold count in *. rewrite !filter_app, QL. simpl.
      rewrite app_nil_r. exact L1.
    + exists (l1 ++ sent)%list. rewrite <- app_assoc. reflexivity.
    + rewrite !filter_app, Q1. simpl. rewrite app_nil_r.
      rewrite (filter_calls is_heartbeat sent heartbeat_is_call).
      rewrite Nb, C1. reflexivity.
    + rewrite Lb, C1. reflexivity.
    + intros r3 w3 l3 E3. rewrite E3. simpl.
      rewrite <- !app_assoc. reflexivity.
  - simpl. rewrite S2. unfold bind at 1, sleep, emit.
    destruct (POLL_INTERVAL cfg <? 0) eqn:Ep; [lia|].
    unfold bind at 1. rewrite deliver_nil.
    exists (tick_clock w1), (l1 ++ [Sleep (POLL_INTERVAL cfg)])%list.
    split; [simpl; congruence|]. split; [simpl; congruence|].
    split; [|split; [|split; [split|]]].
    + unfold count in *. rewrite !filter_app. simpl.
      rewrite app_nil_r. exact L1.
    + exists l1. reflexivity.
    + rewrite !filter_app, Q1. reflexivity.
    + simpl. congruence.
    + intros r3 w3 l3 E3. rewrite E3. simpl.
      rewrite <- !app_assoc. reflexivity.
Qed.

Lemma main_loop_goes_on (n : nat) :
  forall w,
    running w = true ->
    last_heartbeat w <> None ->
    (forall i, (i < n)%nat -> uneventful orc (checks w + i)) ->
    exists w' l,
      main_loop cfg orc n w = mkOut Running w' l /\
      count is_launch l = n /\
      checks w' = (checks w + n)%nat.
Proof.
  induction n as [|n IH]; intros w Hr Hl U.
  - rewrite (main_loop_out_of_fuel cfg orc w Hr).
    exists w, []. repeat split. lia.
  - assert (U0 : uneventful orc (checks w)).
    { replace (checks w) with (checks w + 0)%nat by lia. apply U. lia. }
    destruct (last_heartbeat w) as [l|] eqn:El; [|congruence].
    destruct (iteration_goes_on n w l Hr El U0)
      as (w1 & l1 & Hr1 & K1 & L1 & _ & B & H).
    assert (Hl1 : last_heartbeat w1 <> None).
    { destruct (_ >? _); destruct B as [_ ->]; discriminate. }
    assert (U1 : forall i, (i < n)%nat -> uneventful orc (checks w1 + i)).
    { intros i Hi. rewrite K1.
      replace (S (checks w) + i)%nat with (checks w + S i)%nat by lia.
      apply U. lia. }
    destruct (IH w1 Hr1 Hl1 U1) as (w2 & l2 & E2 & L2 & K2).
    exists w2, (l1 ++ l2)%list. split; [apply H, E2|].
    unfold count in *. rewrite filter_app, length_app. lia.
Qed.

(** [n] undisturbed iterations, then the rest of the loop. *)
Lemma main_loop_cycles (n : nat) :
  forall fuel w,
    running w = true ->
    last_heartbeat w <> None ->
    (forall i, (i < n)%nat -> uneventful orc (checks w + i)) ->
    exists w' cycles,
      running w' = true /\
      polled cfg n cycles /\
      forall r3 w3 l3,
        main_loop cfg orc fuel w' = mkOut r3 w3 l3 ->
        main_loop cfg orc (n + fuel) w = mkOut r3 w3 (cycles ++ l3).
Proof.
  induction n as [|n IH]; intros fuel w Hr Hl U.
  - exists w, []. split; [exact Hr|]. split; [constructor|].
    intros r3 w3 l3 E. exact E.
  - assert (U0 : uneventful orc (checks w)).
    { replace (checks w) with (checks w + 0)%nat by lia. apply U. lia. }
    destruct (last_heartbeat w) as [l|] eqn:El; [|congruence].
    destruct (iteration_goes_on (n + fuel) w l Hr El U0)
      as (w1 & l1 & Hr1 & K1 & L1 & (cyc & ->) & B & H).
    assert (Hl1 : last_heartbeat w1 <> None).
    { destruct (_ >? _); destruct B as [_ ->]; discriminate. }
    assert (U1 : forall i, (i < n)%nat -> uneventful orc (checks w1 + i)).
    { intros i Hi. rewrite K1.
      replace (S (checks w) + i)%nat with (checks w + S i)%nat by lia.
      apply U. lia. }
    destruct (IH fuel w1 Hr1 Hl1 U1) as (w2 & cycles & Hr2 & P & E).
    exists w2, (cyc ++ Sleep (POLL_INTERVAL cfg) :: cycles)%list.
    split; [exact Hr2|]. split.
    + constructor; [|exact P].
      unfold count in *. rewrite filter_app in L1. simpl in L1.
      rewrite app_nil_r in L1. exact L1.
    + intros r3 w3 l3 E3. cbn [Nat.add].
      rewrite (H _ _ _ (E _ _ _ E3)), <- !app_assoc. reflexivity.
Qed.

End Undisturbed.

(** An iteration of a running loop begins by starting the browser. *)
Lemma main_loop_begins_with_a_launch (cfg : Config) (orc : Oracle)
      (fuel : nat) (w : World) :
  running w = true ->
  exists rest,
    out (main_loop cfg orc (S fuel) w) =
    ChromeNew ["--headless"; "--disable-gpu"; "--no-sandbox"] :: rest.
Proof.
  intros Hr. rewrite main_loop_step by exact Hr.
  unfold iteration. rewrite out_bind.
  destruct (check_stock_launches cfg orc w) as [rest ->].
  eexists. reflexivity.
Qed.

(** ** An iteration with [running] false *)

Section LastIteration.

Variable cfg : Config.
Variable orc : Oracle.
Hypothesis transport : transport_errors_only orc.

(** The heartbeat test returns or raises. *)
Lemma heartbeat_if_due_ends (t : Z) (lh : option Z) (w : World) :
  last_heartbeat w = lh ->
  res (heartbeat_if_due cfg orc t lh w) <> Running.
Proof.
  intros Hl. destruct lh as [l|]; [|discriminate].
  rewrite heartbeat_if_due_eq.
  destruct (Z.abs _ >? MAX_DELTA_DAYS); [discriminate|].
  destruct (t - l >? _); [|discriminate].
  destruct (send_heartbeat_run cfg orc transport w l Hl) as (w' & sent & E & _).
  rewrite E. discriminate.
Qed.

(** What is left of an iteration once the check has returned [False], from
    a state in which [running] is false: the heartbeat test and the whole
    sleep, then the loop ends at its test. *)
Lemma rest_of_iteration_ends (fuel c : nat) (w : World) :
  running w = false ->
  exists r w' l,
    rest_of_iteration cfg orc fuel c w = mkOut r w' l /\
    r <> Running /\ running w' = false /\
    filter is_launch l = [] /\ (count is_sleep l <= 1)%nat /\
    (0 <= POLL_INTERVAL cfg -> heartbeat_interval_ok cfg ->
     last_heartbeat w <> None ->
     r = Ret tt /\ filter is_sleep l = [Sleep (POLL_INTERVAL cfg)]).
Proof.
  intros Hr. unfold rest_of_iteration, now.
  unfold bind at 1 2 3 4 5, get, modify, ret. simpl.
  pose proof (heartbeat_if_due_run cfg orc transport
                (now_at orc (clock_reads w)) (tick_clock w)) as (Hb & _ & _ & Hok).
  pose proof (heartbeat_if_due_quiet cfg orc is_launch
                (now_at orc (clock_reads w)) (last_heartbeat w)
                (send_heartbeat_no_launch cfg orc) (tick_clock w)) as QL.
  pose proof (heartbeat_if_due_quiet cfg orc is_sleep
                (now_at orc (clock_reads w)) (last_heartbeat w)
                (send_heartbeat_no_sleep cfg orc) (tick_clock w)) as QS.
  pose proof (heartbeat_if_due_ends (now_at orc (clock_reads w))
                (last_heartbeat w) (tick_clock w) eq_refl) as Hh.
  simpl in Hb, Hok. unfold none_of in QL, QS.
  destruct (heartbeat_if_due cfg orc (now_at orc (clock_reads w))
              (last_heartbeat w) (tick_clock w)) as [[[]|e|] w1 l1];
    simpl in *; [| |congruence].
  2: { eexists _, _, _. split; [reflexivity|].
       unfold count. rewrite QL, QS. simpl.
       split; [discriminate|]. split; [congruence|].
       split; [reflexivity|]. split; [lia|].
       intros Hp Hi Hl. destruct (Hok Hl Hi). discriminate. }
  unfold bind at 1, sleep, emit, raise.
  destruct (POLL_INTERVAL cfg <? 0) eqn:Ep; simpl.
  { eexists _, _, _. split; [reflexivity|].
    unfold count. rewrite app_nil_r, QL, QS. simpl.
    split; [discriminate|]. split; [congruence|].
    split; [reflexivity|]. split; [lia|].
    intros Hp. apply Z.ltb_lt in Ep. lia. }
  unfold bind at 1.
  destruct (deliver_run cfg orc transport (signals_in_sleep orc c) w1)
    as (w2 & l2 & E2 & G2 & L2 & S2 & _).
  rewrite E2.
  assert (R2 : running w2 = false).
  { destruct (signals_in_sleep orc c); split_globals; congruence. }
  rewrite (main_loop_stopped cfg orc fuel w2 R2).
  eexists _, _, _. split; [reflexivity|].
  unfold count. rewrite !filter_app. simpl.
  rewrite !filter_app, QL, QS, L2, S2. simpl.
  split; [discriminate|]. split; [exact R2|].
  split; [reflexivity|]. split; [lia|].
  intros _ _ _. split; reflexivity.
Qed.

(** A whole iteration that starts with [running] false: its check is made,
    and what follows the check launches nothing, sleeps once at most and
    ends the loop. *)
Lemma iteration_ends (fuel c : nat) (w : World) :
  running w = false ->
  exists r w' l,
    iteration cfg orc fuel c w =
      mkOut r w' (out (check_stock cfg orc w) ++ l) /\
    r <> Running /\ running w' = false /\
    count is_launch (out (check_stock cfg orc w)) = 1%nat /\
    filter is_launch l = [] /\ (count is_sleep l <= 1)%nat.
Proof.
  intros Hr. unfold iteration, bind at 1.
  pose proof (check_stock_result cfg orc transport w) as Hres.
  destruct (chrome_at orc (checks w)) as [e|] eqn:Hc.
  { rewrite (check_stock_no_driver cfg orc w e Hc). simpl.
    eexists _, _, []. split; [reflexivity|].
    split; [discriminate|]. split; [exact Hr|].
    repeat split. unfold count. simpl. lia. }
  destruct (check_stock_run cfg orc transport w Hc)
    as (R1 & _ & _ & _ & L1 & _).
  destruct (check_stock cfg orc w) as [r1 w1 l1]. simpl in *.
  destruct r1 as [found|e|].
  - unfold bind at 1.
    destruct (deliver_run cfg orc transport (signals_after_check orc c) w1)
      as (w2 & l2 & E2 & G2 & L2 & S2 & _).
    rewrite E2.
    assert (R2 : running w2 = false).
    { destruct (signals_after_check orc c); split_globals; congruence. }
    destruct found.
    + simpl. eexists _, _, _. split; [reflexivity|].
      unfold count. rewrite app_nil_r, L2, S2. simpl.
      split; [discriminate|]. split; [exact R2|].
      split; [exact L1|]. split; [reflexivity | lia].
    + destruct (rest_of_iteration_ends fuel c w2 R2)
        as (r3 & w3 & l3 & E3 & N3 & R3 & L3 & S3 & _).
      rewrite E3. eexists _, _, _. split; [reflexivity|].
      unfold count in *. rewrite !filter_app, L2, S2, L3. simpl.
      split; [exact N3|]. split; [exact R3|].
      split; [exact L1|]. split; [reflexivity | exact S3].
  - eexists _, _, []. split; [rewrite app_nil_r; reflexivity|].
    split; [discriminate|]. split; [congruence|].
    split; [exact L1|]. split; [reflexivity|]. unfold count. simpl. lia.
  - exfalso.
    destruct (fetch_result orc (checks w)) as [e|page];
      [destruct (fetch_error e)|]; discriminate.
Qed.

End LastIteration.

(** ** Concrete runs *)

Module Scenario.

(** The environment of the unit tests' fixture. *)
Definition env (k : string) : option string :=
  if String.eqb k "PUSHOVER_TOKEN" then Some "test_token" else
  if String.eqb k "PUSHOVER_USER" then Some "test_user" else
  if String.eqb k "EMAIL_USER" then Some "a@b.com" else
  if String.eqb k "EMAIL_PASSWORD" then Some "pw" else
  if String.eqb k "EMAIL_RECIPIENTS" then Some "c@d.com,e@f.com" else None.

Definition no_env (k : string) : option string := None.

Definition url : string := "https://www.microcenter.com/product/1".

(** Poll every 60 s, alert at 3 failures, heartbeat every 24 h. *)
Definition cfg : Config :=
  mkConfig (Some url) (Some "storeSelected") (Some "131") 60 3 24.

(** The same with [PRODUCT_URL] missing from [config.env]. *)
Definition cfg_no_url : Config :=
  mkConfig None (Some "storeSelected") (Some "131") 60 3 24.

(** The globals as the module initialises them. *)
Definition start : World := mkWorld true 0 None 0 0 0 0.

Definition hour : Z := 3600 * 1000000.

(** One second between two readings of the clock. *)
Definition clock (n : nat) : Z := Z.of_nat n * 1000000.

(** A stand-in for [strftime]: the reading itself. *)
Definition stamp (t : Z) : string := PyStr.of_int t.

Definition refused : exn := mkExn RequestsConnectionError "connection refused".
Definition relay_down : exn := mkExn SMTPServerDisconnected "connection closed".
Definition page_timeout : exn := mkExn TimeoutException "timed out".

Definition both_markers : string :=
  "{'inStock':'True'} ... {'inStock':'False'}".
Definition out_of_stock : string := "{'sku':'1','inStock':'False'}".
Definition no_marker : string := "<html>Access denied</html>".

(** Every check sees [page]; both channels are down; no signal arrives. *)
Definition channels_down (page : string) : Oracle :=
  mkOracle clock stamp env
           (fun _ => Some refused)
           (fun _ s => match s with AtLogin => Some relay_down | _ => None end)
           (fun _ => None) (fun _ _ => None) (fun _ => page)
           (fun _ => []) (fun _ => []).

(** Every check sees [page]; no credentials are configured. *)
Definition unconfigured (page : string) : Oracle :=
  mkOracle clock stamp no_env
           (fun _ => None) (fun _ _ => None)
           (fun _ => None) (fun _ _ => None) (fun _ => page)
           (fun _ => []) (fun _ => []).

(** Every page load times out in the driver. *)
Definition driver_times_out : Oracle :=
  mkOracle clock stamp no_env
           (fun _ => None) (fun _ _ => None)
           (fun _ => None)
           (fun _ s => match s with AtProduct => Some page_timeout | _ => None end)
           (fun _ => EmptyString)
           (fun _ => []) (fun _ => []).

(** SIGTERM (15) arrives during the first check and is handled as the
    check returns. *)
Definition sigterm_during_first_check : Oracle :=
  mkOracle clock stamp no_env
           (fun _ => None) (fun _ _ => None)
           (fun _ => None) (fun _ _ => None) (fun _ => out_of_stock)
           (fun c => match c with O => [15] | _ => [] end) (fun _ => []).

(** The clock reads 0 at start, 25 h during the first iteration and 50 h
    from the second on. *)
Definition two_days : Oracle :=
  mkOracle (fun n => match n with
                     | O => 0
                     | 1%nat | 2%nat | 3%nat | 4%nat => 25 * hour
                     | _ => 50 * hour
                     end)
           stamp no_env
           (fun _ => None) (fun _ _ => None)
           (fun _ => None) (fun _ _ => None) (fun _ => out_of_stock)
           (fun _ => []) (fun _ => []).

Definition invalid_url : exn :=
  mkExn InvalidArgumentException "invalid argument: 'url' must be a string".
Definition no_session : exn :=
  mkExn SessionNotCreatedException "session not created".

(** With [PRODUCT_URL] missing the driver is asked to load [None] and
    refuses. *)
Definition url_refused : Oracle :=
  mkOracle clock stamp no_env
           (fun _ => None) (fun _ _ => None)
           (fun _ => None)
           (fun _ s => match s with AtProduct => Some invalid_url | _ => None end)
           (fun _ => EmptyString)
           (fun _ => []) (fun _ => []).

(** The browser cannot be started. *)
Definition no_browser : Oracle :=
  mkOracle clock stamp no_env
           (fun _ => None) (fun _ _ => None)
           (fun _ => Some no_session) (fun _ _ => None)
           (fun _ => EmptyString)
           (fun _ => []) (fun _ => []).

Definition connection_refused : exn :=
  mkExn ConnectionRefusedError "[Errno 111] Connection refused".

(** The driver process has gone away: the first [driver.get] cannot reach
    it. *)
Definition driver_unreachable : Oracle :=
  mkOracle clock stamp no_env
           (fun _ => None) (fun _ _ => None)
           (fun _ => None)
           (fun _ s => match s with AtHome => Some connection_refused | _ => None end)
           (fun _ => EmptyString)
           (fun _ => []) (fun _ => []).

Lemma channels_down_transport (page : string) :
  transport_errors_only (channels_down page).
Proof.
  split.
  - intros n e H. injection H as <-. reflexivity.
  - intros n [] e H; simpl in H; try discriminate H.
    injection H as <-. reflexivity.
Defined.

Lemma no_traffic_transport (orc : Oracle) :
  (forall n, post_at orc n = None) -> (forall n s, smtp_at orc n s = None) ->
  transport_errors_only orc.
Proof.
  intros Hp Hs. split.
  - intros n e H. rewrite Hp in H. discriminate H.
  - intros n s e H. rewrite Hs in H. discriminate H.
Defined.

End Scenario.

(** * The claims *)

(** ** C1: the error alert from the threshold on *)



(** ** C2: an in-stock check ends the loop *)

Lemma deliver_no_in_stock_push (cfg : Config) (orc : Oracle) (signums : list Z) :
  quiet (push_titled "In Stock") (deliver cfg orc signums).
Proof. quiet_prog. Qed.

Lemma deliver_no_in_stock_email (cfg : Config) (orc : Oracle) (signums : list Z) :
  quiet (email_titled "Product In Stock") (deliver cfg orc signums).
Proof. quiet_prog. Qed.

(** C2.  When the page of a check contains the in-stock marker, the check
    sets [consecutive_failures] to 0 whatever it was, calls [send_push] and
    [send_email] once each with the in-stock message and [PRODUCT_URL], and
    returns [True]; the loop then ends (for any number of iterations it
    might still have had) after the handlers of pending signals, with this
    check's driver the only one launched. *)
Theorem in_stock_check_ends_the_loop
        (cfg : Config) (orc : Oracle) (w : World) (fuel : nat) (page : string) :
  transport_errors_only orc ->
  running w = true ->
  chrome_at orc (checks w) = None ->
  fetch_result orc (checks w) = inr page ->
  PyStr.contains IN_STOCK_MARKER page = true ->
  exists w1 l1 w2 l2,
    check_stock cfg orc w = mkOut (Ret true) w1 l1 /\
    deliver cfg orc (signals_after_check orc (checks w)) w1 =
      mkOut (Ret tt) w2 l2 /\
    main_loop cfg orc (S fuel) w = mkOut (Ret tt) w2 (l1 ++ l2) /\
    consecutive_failures w1 = 0 /\ consecutive_failures w2 = 0 /\
    notifications l1 = in_stock_alert cfg /\
    filter (push_titled "In Stock") (l1 ++ l2) =
      [CallPush "Product is in stock! Click to view the product page."
                "In Stock" (PRODUCT_URL cfg)] /\
    filter (email_titled "Product In Stock") (l1 ++ l2) =
      [CallEmail "Product In Stock"
         "Your product is now available! Click the link below to view the product page."
         (PRODUCT_URL cfg)] /\
    count is_launch (l1 ++ l2) = 1%nat.
Proof.
  intros Ht Hr Hc Hf Hi.
  destruct (check_stock_run cfg orc Ht w Hc) as (_ & _ & _ & _ & L1 & H).
  rewrite Hf, Hi in H. destruct H as (R1 & N1 & A1 & _).
  rewrite main_loop_step by exact Hr. unfold iteration, bind.
  destruct (check_stock cfg orc w) as [r1 w1 l1]. simpl in *. subst r1.
  pose proof (deliver_no_in_stock_push cfg orc
                (signals_after_check orc (checks w)) w1) as QP.
  pose proof (deliver_no_in_stock_email cfg orc
                (signals_after_check orc (checks w)) w1) as QE.
  destruct (deliver_run cfg orc Ht (signals_after_check orc (checks w)) w1)
    as (w2 & l2 & E2 & G2 & L2 & _).
  rewrite E2 in *. simpl in QP, QE. unfold none_of in QP, QE.
  exists w1, l1, w2, l2. simpl. rewrite app_nil_r.
  split; [reflexivity|]. split; [exact E2|]. split; [reflexivity|].
  split; [exact N1|].
  split.
  { destruct (signals_after_check orc (checks w)); split_globals; congruence. }
  split; [exact A1|].
  unfold count in *. rewrite !filter_app, QP, QE, L2, !app_nil_r.
  rewrite (filter_calls (push_titled "In Stock") l1),
          (filter_calls (email_titled "Product In Stock") l1), A1.
  - split; [reflexivity|]. split; [reflexivity | exact L1].
  - intros []; simpl; congruence.
  - intros []; simpl; congruence.
Qed.

(** The counter stood at 2, the page has both markers, both channels are
    down: the loop ends at once. *)
Lemma in_stock_check_ends_the_loop_witness :
  exists w1 l1 w2 l2,
    check_stock Scenario.cfg (Scenario.channels_down Scenario.both_markers)
                (set_consecutive_failures 2 Scenario.start) =
      mkOut (Ret true) w1 l1 /\
    deliver Scenario.cfg (Scenario.channels_down Scenario.both_markers) [] w1 =
      mkOut (Ret tt) w2 l2 /\
    main_loop Scenario.cfg (Scenario.channels_down Scenario.both_markers) 5
              (set_consecutive_failures 2 Scenario.start) =
      mkOut (Ret tt) w2 (l1 ++ l2) /\
    consecutive_failures w1 = 0 /\ consecutive_failures w2 = 0.
Proof.
  destruct (in_stock_check_ends_the_loop
              Scenario.cfg (Scenario.channels_down Scenario.both_markers)
              (set_consecutive_failures 2 Scenario.start) 4
              Scenario.both_markers
              (Scenario.channels_down_transport _)
              eq_refl eq_refl eq_refl eq_refl)
    as (w1 & l1 & w2 & l2 & H1 & H2 & H3 & H4 & H5 & _).
  exists w1, l1, w2, l2. auto.
Defined.

(** ** C3: the stop notifications *)

Definition stop_push (e : event) : bool :=
  push_titled "Service Stopping" e || push_titled "Service Stopped" e.
Definition stop_email (e : event) : bool :=
  email_titled "Microcenter Stock Checker Service Stopping" e ||
  email_titled "Microcenter Stock Checker Service Stopped" e.

(** SIGTERM arrives during the first check: the handler sends its
    [Service Stopping] pair, the loop ends at its next test, and the
    [finally] block of [main] sends the [Service Stopped] pair; two stop
    pairs in the run. *)
Lemma sigterm_run_sends_two_stop_pairs :
  let o := main Scenario.cfg Scenario.sigterm_during_first_check 3
                Scenario.start in
  res o = Ret tt /\
  count stop_push (out o) = 2%nat /\ count stop_email (out o) = 2%nat /\
  map (fun e => match e with CallPush _ t _ => t | _ => EmptyString end)
      (filter stop_push (out o)) = ["Service Stopping"; "Service Stopped"].
Proof. vm_compute. repeat split; reflexivity. Qed.

(** C3, as the code has it.  A run of [main] that ends, by an in-stock
    check, by the flag or by an exception that leaves the loop, has sent
    exactly one [Service Stopped] push and one [Service Stopped] email, from
    the [finally] block; the signal handler sends its own
    [Service Stopping] pair each time it runs, before it clears
    [running]. *)
Theorem one_stopped_pair_when_main_ends
        (cfg : Config) (orc : Oracle) (fuel : nat) (w : World) :
  transport_errors_only orc ->
  res (main cfg orc fuel w) <> Running ->
  count (push_titled "Service Stopped") (out (main cfg orc fuel w)) = 1%nat /\
  count (email_titled "Microcenter Stock Checker Service Stopped")
        (out (main cfg orc fuel w)) = 1%nat /\
  (forall signum w0,
     res (handle_shutdown cfg orc signum w0) = Ret tt /\
     notifications (out (handle_shutdown cfg orc signum w0)) =
       stopping_alert cfg /\
     running (world (handle_shutdown cfg orc signum w0)) = false).
Proof.
  intros Ht Hend.
  destruct (main cfg orc fuel w) as [r w' l] eqn:E. simpl in *.
  destruct (main_inv cfg orc Ht fuel w w' r l E)
    as (w1 & l0 & r2 & w2 & l2 & l3 & EL & _ & -> & N0 & _ & H).
  pose proof (main_loop_no_stopped_push cfg orc fuel w1) as QP.
  pose proof (main_loop_no_stopped_email cfg orc fuel w1) as QE.
  rewrite EL in QP, QE. simpl in QP, QE. unfold none_of in QP, QE.
  assert (N3 : notifications l3 = stopped_alert cfg).
  { destruct r2; try apply H. destruct H as [-> _]. congruence. }
  unfold count. rewrite !filter_app, QP, QE.
  rewrite (filter_calls (push_titled "Service Stopped") l0),
          (filter_calls (push_titled "Service Stopped") l3),
          (filter_calls (email_titled "Microcenter Stock Checker Service Stopped") l0),
          (filter_calls (email_titled "Microcenter Stock Checker Service Stopped") l3),
          N0, N3;
    try (intros []; simpl; congruence).
  split; [reflexivity|]. split; [reflexivity|].
  intros signum w0.
  destruct (handle_shutdown_run cfg orc Ht signum w0)
    as (w3 & text & rest & E3 & G3 & N & _).
  rewrite E3. simpl. split; [reflexivity|]. split.
  - unfold notifications in *. simpl. rewrite N. reflexivity.
  - split_globals. congruence.
Qed.

(** The run in which SIGTERM arrives during the first check. *)
Lemma one_stopped_pair_when_main_ends_witness :
  count (push_titled "Service Stopped")
        (out (main Scenario.cfg Scenario.sigterm_during_first_check 3
                   Scenario.start)) = 1%nat.
Proof.
  apply (one_stopped_pair_when_main_ends
           Scenario.cfg Scenario.sigterm_during_first_check 3 Scenario.start
           (Scenario.no_traffic_transport Scenario.sigterm_during_first_check
              (fun _ => eq_refl) (fun _ _ => eq_refl))).
  intros H. vm_compute in H. discriminate H.
Defined.

(** ** C4: the uptime of a heartbeat *)

(** C4, on a run of two days.  The clock reads 0 at the start of [main],
    25 h in the first iteration and 50 h in the second, and heartbeats are
    due every 24 h.  Both heartbeats report [Uptime: 1 days, 1 hours]: the
    second one reports the 25 h since the first heartbeat, although the
    loop started 50 h (2 days, 2 hours) before. *)
Lemma second_heartbeat_reports_time_since_first :
  let o := main Scenario.cfg Scenario.two_days 2 Scenario.start in
  let since_start := 50 * Scenario.hour - now_at Scenario.two_days 0 in
  filter (push_titled "Service Heartbeat") (out o) =
    [CallPush (heartbeat_message Scenario.two_days (25 * Scenario.hour)
                                 (25 * Scenario.hour))
              "Service Heartbeat" (Some Scenario.url);
     CallPush (heartbeat_message Scenario.two_days (25 * Scenario.hour)
                                 (50 * Scenario.hour))
              "Service Heartbeat" (Some Scenario.url)] /\
  heartbeat_message Scenario.two_days (25 * Scenario.hour) (50 * Scenario.hour) =
    "Microcenter Stock Checker service is running normally." ++ PyStr.nl ++
    "Uptime: 1 days, 1 hours" ++ PyStr.nl ++ "Last check: 180000000000" /\
  (td_days since_start, td_seconds since_start / 3600) = (2, 2).
Proof. vm_compute. repeat split; reflexivity. Qed.

(** ** C5: the in-stock marker is looked for first *)

(** C5.  Whatever page the driver returns, [check_stock] classifies it and
    returns: a page that contains the in-stock marker is in stock whether or
    not it also contains the out-of-stock marker; a page with only the
    out-of-stock marker is out of stock (counter reset, nothing sent, no
    failure counted); a page with neither is unknown. *)
Theorem in_stock_marker_takes_precedence
        (cfg : Config) (orc : Oracle) (w : World) (page : string) :
  transport_errors_only orc ->
  chrome_at orc (checks w) = None ->
  fetch_result orc (checks w) = inr page ->
  let o := check_stock cfg orc w in
  let has marker := exists pre post, page = pre ++ marker ++ post in
  (exists b, res o = Ret b) /\
  (has IN_STOCK_MARKER ->
     res o = Ret true /\ consecutive_failures (world o) = 0 /\
     notifications (out o) = in_stock_alert cfg /\
     In (Log INFO "Status: In Stock!") (out o)) /\
  (~ has IN_STOCK_MARKER -> has OUT_OF_STOCK_MARKER ->
     res o = Ret false /\ consecutive_failures (world o) = 0 /\
     notifications (out o) = [] /\
     In (Log INFO "Status: Out of Stock") (out o)) /\
  (~ has IN_STOCK_MARKER -> ~ has OUT_OF_STOCK_MARKER ->
     res o = Ret false /\
     consecutive_failures (world o) = consecutive_failures w + 1).
Proof.
  intros Ht Hc Hf o has.
  destruct (check_stock_run cfg orc Ht w Hc) as (_ & _ & _ & _ & _ & H).
  fold o in H. rewrite Hf in H.
  pose proof (contains_spec IN_STOCK_MARKER page) as Sin.
  pose proof (contains_spec OUT_OF_STOCK_MARKER page) as Sout.
  fold (has IN_STOCK_MARKER) in Sin. fold (has OUT_OF_STOCK_MARKER) in Sout.
  destruct (PyStr.contains IN_STOCK_MARKER page).
  { destruct H as (Hr & Hn & Ha & Hl). split; [eauto|].
    split; [auto|]. split; intros N; exfalso; apply N, Sin; reflexivity. }
  destruct (PyStr.contains OUT_OF_STOCK_MARKER page).
  { destruct H as (Hr & Hn & Ha & Hl). split; [eauto|].
    split; [intros N; apply Sin in N; discriminate|].
    split; [auto|]. intros _ N. exfalso. apply N, Sout. reflexivity. }
  destruct H as (Hr & Hn & Ha & Hl). split; [eauto|].
  split; [intros N; apply Sin in N; discriminate|].
  split; [intros _ N; apply Sout in N; discriminate|]. auto.
Qed.

(** A page with both markers, checked with both channels down. *)
Lemma in_stock_marker_takes_precedence_witness :
  res (check_stock Scenario.cfg (Scenario.channels_down Scenario.both_markers)
                   Scenario.start) = Ret true.
Proof.
  pose proof (in_stock_marker_takes_precedence
                Scenario.cfg (Scenario.channels_down Scenario.both_markers)
                Scenario.start Scenario.both_markers
                (Scenario.channels_down_transport _) eq_refl eq_refl) as H.
  cbv zeta in H. destruct H as (_ & H & _).
  assert (Hin : exists pre post,
             Scenario.both_markers = pre ++ IN_STOCK_MARKER ++ post).
  { exists "{"%string, "} ... {'inStock':'False'}"%string. reflexivity. }
  exact (proj1 (H Hin)).
Defined.

(** ** C6: a missing target URL *)




(** ** C7: what the loop does once shutdown is signalled *)




(** ** C8: the notifiers swallow transport errors *)

(** C8.  [send_push] and [send_email] return normally, leaving every
    global (so also [running]) as it was, whenever what the underlying send
    raises is a transport error of the channel; with credentials missing
    they return after a warning, without any traffic. *)
Theorem notifiers_swallow_transport_errors (orc : Oracle) (w : World) :
  (forall message title url,
     (forall e, post_at orc (posts w) = Some e -> push_transport_error e = true) ->
     res (send_push orc message title url w) = Ret tt /\
     globals (world (send_push orc message title url w)) = globals w) /\
  (forall subject body url,
     (forall s e, smtp_at orc (smtp_sessions w) s = Some e ->
                  email_transport_error e = true) ->
     res (send_email orc subject body url w) = Ret tt /\
     globals (world (send_email orc subject body url w)) = globals w) /\
  (forall message title url,
     PyStr.truthy (getenv orc "PUSHOVER_TOKEN") &&
     PyStr.truthy (getenv orc "PUSHOVER_USER") = false ->
     send_push orc message title url w =
       mkOut (Ret tt) w
         [CallPush message title url;
          Log WARNING "Pushover credentials missing, skipping push"]) /\
  (forall subject body url,
     PyStr.truthy (getenv orc "EMAIL_USER") &&
     PyStr.truthy (getenv orc "EMAIL_PASSWORD") &&
     match filter PyStr.nonempty
             (map PyStr.strip
                (PyStr.split ","%char (or_empty (getenv orc "EMAIL_RECIPIENTS"))))
     with [] => false | _ => true end = false ->
     send_email orc subject body url w =
       mkOut (Ret tt) w
         [CallEmail subject body url;
          Log WARNING "Email settings incomplete, skipping email"]).
Proof.
  repeat split.
  - destruct (send_push_run orc message title url w H) as (w' & l & E & _).
    rewrite E. reflexivity.
  - destruct (send_push_run orc message title url w H) as (w' & l & E & G & _).
    rewrite E. exact G.
  - destruct (send_email_run orc subject body url w H) as (w' & l & E & _).
    rewrite E. reflexivity.
  - destruct (send_email_run orc subject body url w H) as (w' & l & E & G & _).
    rewrite E. exact G.
  - intros message title url H. unfold send_push, bind, emit. simpl.
    apply andb_false_iff in H.
    destruct (PyStr.truthy (getenv orc "PUSHOVER_TOKEN")),
             (PyStr.truthy (getenv orc "PUSHOVER_USER"));
      simpl; try reflexivity.
    destruct H; discriminate.
  - intros subject body url H. unfold send_email, bind, emit. simpl.
    rewrite H. reflexivity.
Qed.

(** With Pushover refusing connections and the mail relay hanging up at
    login, both notifiers return; with nothing configured they only warn. *)
Lemma notifiers_swallow_transport_errors_witness :
  res (send_push (Scenario.channels_down EmptyString) "m" "t" None
                 Scenario.start) = Ret tt /\
  res (send_email (Scenario.channels_down EmptyString) "s" "b" None
                  Scenario.start) = Ret tt /\
  out (send_push (Scenario.unconfigured EmptyString) "m" "t" None
                 Scenario.start) =
    [CallPush "m" "t" None;
     Log WARNING "Pushover credentials missing, skipping push"].
Proof.
  split; [|split].
  - apply (notifiers_swallow_transport_errors
             (Scenario.channels_down EmptyString) Scenario.start).
    intros e H. injection H as <-. reflexivity.
  - apply (notifiers_swallow_transport_errors
             (Scenario.channels_down EmptyString) Scenario.start).
    intros [] e H; simpl in H; try discriminate H.
    injection H as <-. reflexivity.
  - rewrite (proj1 (proj2 (proj2 (notifiers_swallow_transport_errors
             (Scenario.unconfigured EmptyString) Scenario.start)))
             "m" "t" None eq_refl).
    reflexivity.
Defined.

(** ** C9: unknown pages and fetch errors count alike *)

(** The browser cannot be started: [webdriver.Chrome] raises a
    [WebDriverException], and the failure is not counted. *)
Lemma browser_failure_is_not_counted :
  let o := check_stock Scenario.cfg Scenario.no_browser Scenario.start in
  issubclass (class_of Scenario.no_session) WebDriverException = true /\
  res o = Raise Scenario.no_session /\
  consecutive_failures (world o) = consecutive_failures Scenario.start.
Proof. vm_compute. repeat split; reflexivity. Qed.

(** C9, as the code has it.  In a check that has its driver, a page with
    neither marker is logged as unknown and adds exactly 1 to
    [consecutive_failures]; a [WebDriverException] or [TimeoutError] raised
    by a driver call of the [try] block adds exactly 1 as well, and both
    branches alert by the same test of the new count against [MAX_RETRIES].
    An exception raised by [webdriver.Chrome], which is called before the
    [try], and an exception of any other class are not counted: they leave
    [check_stock], the count is what it was and nothing is sent. *)
Theorem unknown_and_fetch_error_count_alike
        (cfg : Config) (orc : Oracle) (w : World) :
  transport_errors_only orc ->
  let o := check_stock cfg orc w in
  let n := consecutive_failures w + 1 in
  (forall page,
     chrome_at orc (checks w) = None ->
     fetch_result orc (checks w) = inr page ->
     PyStr.contains IN_STOCK_MARKER page = false ->
     PyStr.contains OUT_OF_STOCK_MARKER page = false ->
     consecutive_failures (world o) = n /\
     In (Log WARNING ("Status: Unknown (Failure #" ++ PyStr.of_int n ++ ")"))
        (out o) /\
     notifications (out o) = unknown_alert cfg n) /\
  (forall e,
     chrome_at orc (checks w) = None ->
     fetch_result orc (checks w) = inl e ->
     fetch_error e = true ->
     consecutive_failures (world o) = n /\
     notifications (out o) = exception_alert cfg e n) /\
  (forall e,
     escapes orc (checks w) e ->
     res o = Raise e /\
     consecutive_failures (world o) = consecutive_failures w /\
     notifications (out o) = []).
Proof.
  intros Ht o n. split; [|split].
  - intros page Hc Hf Hi Ho.
    destruct (check_stock_run cfg orc Ht w Hc) as (_ & _ & _ & _ & _ & H).
    fold o in H. rewrite Hf, Hi, Ho in H.
    destruct H as (_ & Hn & Ha & Hl). auto.
  - intros e Hc Hf He.
    destruct (check_stock_run cfg orc Ht w Hc) as (_ & _ & _ & _ & _ & H).
    fold o in H. rewrite Hf, He in H.
    destruct H as (_ & Hn & Ha & _). auto.
  - intros e He.
    destruct (check_stock_escapes cfg orc Ht w e He)
      as (w' & l & E & Hn & Ha & _).
    unfold o. rewrite E. auto.
Qed.

(** A page without marker, a page load that times out, and a browser that
    does not start. *)
Lemma unknown_and_fetch_error_count_alike_witness :
  consecutive_failures
    (world (check_stock Scenario.cfg (Scenario.unconfigured Scenario.no_marker)
                        Scenario.start)) = 1 /\
  consecutive_failures
    (world (check_stock Scenario.cfg Scenario.driver_times_out
                        Scenario.start)) = 1 /\
  consecutive_failures
    (world (check_stock Scenario.cfg Scenario.no_browser
                        Scenario.start)) = 0.
Proof.
  split; [|split].
  - pose proof (unknown_and_fetch_error_count_alike
                  Scenario.cfg (Scenario.unconfigured Scenario.no_marker)
                  Scenario.start
                  (Scenario.no_traffic_transport
                     (Scenario.unconfigured Scenario.no_marker)
                     (fun _ => eq_refl) (fun _ _ => eq_refl))) as H.
    cbv zeta in H. destruct H as (H & _).
    exact (proj1 (H Scenario.no_marker eq_refl eq_refl eq_refl eq_refl)).
  - pose proof (unknown_and_fetch_error_count_alike
                  Scenario.cfg Scenario.driver_times_out Scenario.start
                  (Scenario.no_traffic_transport
                     Scenario.driver_times_out
                     (fun _ => eq_refl) (fun _ _ => eq_refl))) as H.
    cbv zeta in H. destruct H as (_ & H & _).
    exact (proj1 (H Scenario.page_timeout eq_refl eq_refl eq_refl)).
  - pose proof (unknown_and_fetch_error_count_alike
                  Scenario.cfg Scenario.no_browser Scenario.start
                  (Scenario.no_traffic_transport
                     Scenario.no_browser
                     (fun _ => eq_refl) (fun _ _ => eq_refl))) as H.
    cbv zeta in H. destruct H as (_ & _ & H).
    exact (proj1 (proj2 (H Scenario.no_session (or_introl eq_refl)))).
Defined.

(** ** C10: the value of [check_stock] *)

(** A browser that does not start, and a driver that has gone away when the
    first page is asked for: [check_stock] raises. *)
Lemma check_stock_raises_what_it_does_not_catch :
  res (check_stock Scenario.cfg Scenario.no_browser Scenario.start) =
    Raise Scenario.no_session /\
  res (check_stock Scenario.cfg Scenario.driver_unreachable Scenario.start) =
    Raise Scenario.connection_refused.
Proof. vm_compute. split; reflexivity. Qed.

(** C10, as the code has it.  [check_stock] returns [True] exactly when the
    driver was created and the fetch gave a page that contains the in-stock
    marker.  Otherwise, with a driver, it returns [False] for a page without
    the in-stock marker (out of stock or unknown, below or at the alert
    threshold) and for a fetch that raised a [WebDriverException] or a
    [TimeoutError]; and it raises, instead of returning [False], what
    [webdriver.Chrome] raises and what a driver call raises of any other
    class. *)
Theorem check_stock_true_iff_in_stock
        (cfg : Config) (orc : Oracle) (w : World) :
  transport_errors_only orc ->
  (res (check_stock cfg orc w) = Ret true <->
   chrome_at orc (checks w) = None /\
   exists page, fetch_result orc (checks w) = inr page /\
                PyStr.contains IN_STOCK_MARKER page = true) /\
  res (check_stock cfg orc w) =
    match chrome_at orc (checks w) with
    | Some e => Raise e
    | None =>
        match fetch_result orc (checks w) with
        | inr page => Ret (PyStr.contains IN_STOCK_MARKER page)
        | inl e => if fetch_error e then Ret false else Raise e
        end
    end.
Proof.
  intros Ht. pose proof (check_stock_result cfg orc Ht w) as H.
  split; [|exact H]. rewrite H.
  destruct (chrome_at orc (checks w)) as [e0|].
  { split; [discriminate | intros [E _]; discriminate]. }
  destruct (fetch_result orc (checks w)) as [e|page].
  - split; [destruct (fetch_error e); discriminate|].
    intros [_ (page & E & _)]. discriminate.
  - split.
    + intros E. injection E as E. split; [reflexivity|]. exists page. auto.
    + intros [_ (page' & E & Hi)]. injection E as <-. rewrite Hi. reflexivity.
Qed.

(** The third unknown page in a row, the one that alerts, still returns
    [False]. *)
Lemma check_stock_true_iff_in_stock_witness :
  res (check_stock Scenario.cfg (Scenario.channels_down Scenario.no_marker)
                   (set_consecutive_failures 2 Scenario.start)) = Ret false.
Proof.
  exact (proj2 (check_stock_true_iff_in_stock
                  Scenario.cfg (Scenario.channels_down Scenario.no_marker)
                  (set_consecutive_failures 2 Scenario.start)
                  (Scenario.channels_down_transport _))).
Defined.

(** * Further properties of the program *)

(** ** Computations that end *)

(** A computation that never needs more steps than it is granted: all of
    the program but the loop. *)
Definition halts {A} (m : M A) : Prop := forall w, res (m w) <> Running.

Lemma halts_ret {A} (a : A) : halts (ret a).
Proof. intros w. discriminate. Qed.

Lemma halts_raise {A} (e : exn) : halts (@raise A e).
Proof. intros w. discriminate. Qed.

Lemma halts_get {A} (f : World -> A) : halts (get f).
Proof. intros w. discriminate. Qed.

Lemma halts_modify (f : World -> World) : halts (modify f).
Proof. intros w. discriminate. Qed.

Lemma halts_emit (e : event) : halts (emit e).
Proof. intros w. discriminate. Qed.

Lemma halts_bind {A B} (m : M A) (f : A -> M B) :
  halts m -> (forall a, halts (f a)) -> halts (bind m f).
Proof.
  intros Hm Hf w. unfold bind. specialize (Hm w).
  destruct (m w) as [[a|e|] w1 o1]; simpl in *; try discriminate.
  - specialize (Hf a w1). destruct (f a w1). exact Hf.
  - congruence.
Qed.

Lemma halts_extcall (ev : event) (answer : option exn) :
  halts (extcall ev answer).
Proof.
  apply halts_bind; [apply halts_emit|]. intros _.
  destruct answer; [apply halts_raise | apply halts_ret].
Qed.

Lemma halts_try_except {A} (body : M A) (classes : list exn_class)
      (handler : exn -> M A) :
  halts body -> (forall e, halts (handler e)) ->
  halts (try_except body classes handler).
Proof.
  intros Hb Hh w. unfold try_except. specialize (Hb w).
  destruct (body w) as [[a|e|] w1 o1]; simpl in *; try discriminate.
  - destruct (caught_by classes e); [|discriminate].
    specialize (Hh e w1). destruct (handler e w1). exact Hh.
  - congruence.
Qed.

Lemma halts_try_finally {A} (body : M A) (fin : M unit) :
  halts body -> halts fin -> halts (try_finally body fin).
Proof.
  intros Hb Hf w. unfold try_finally. specialize (Hb w).
  destruct (body w) as [[a|e|] w1 o1]; simpl in *; try congruence;
    specialize (Hf w1); destruct (fin w1) as [[[]|e'|] w2 o2]; simpl in *;
    congruence.
Qed.

Lemma halts_now (orc : Oracle) : halts (now orc).
Proof. intros w. discriminate. Qed.

Lemma halts_timedelta_hours (h : Z) : halts (timedelta_hours h).
Proof.
  unfold timedelta_hours. destruct (_ >? _); [apply halts_raise | apply halts_ret].
Qed.

Lemma halts_sleep (secs : Z) : halts (sleep secs).
Proof.
  unfold sleep. destruct (secs <? 0); [apply halts_raise | apply halts_emit].
Qed.

(** One structural step of a proof that a computation ends. *)
Ltac halts_step :=
  lazymatch goal with
  | |- halts (ret _) => apply halts_ret
  | |- halts (raise _) => apply halts_raise
  | |- halts (get _) => apply halts_get
  | |- halts (modify _) => apply halts_modify
  | |- halts (now _) => apply halts_now
  | |- halts (timedelta_hours _) => apply halts_timedelta_hours
  | |- halts (sleep _) => apply halts_sleep
  | |- halts (emit _) => apply halts_emit
  | |- halts (extcall _ _) => apply halts_extcall
  | |- halts (try_except _ _ _) =>
      apply halts_try_except; [|intros ?; cbv beta]
  | |- halts (try_finally _ _) => apply halts_try_finally
  | |- halts (bind _ _) => apply halts_bind; [|intros ?; cbv beta]
  | |- halts (if ?b then _ else _) => destruct b
  | |- halts (match ?x with Some _ => _ | None => _ end) => destruct x
  end.

Lemma halts_send_push (orc : Oracle) (message title : string)
      (url : option string) : halts (send_push orc message title url).
Proof. unfold send_push. repeat halts_step. Qed.

Lemma halts_send_email (orc : Oracle) (subject body : string)
      (url : option string) : halts (send_email orc subject body url).
Proof. unfold send_email. repeat halts_step. Qed.

Ltac halts_prog :=
  repeat lazymatch goal with
    | |- halts (send_push _ _ _ _) => apply halts_send_push
    | |- halts (send_email _ _ _ _) => apply halts_send_email
    | |- halts _ => halts_step
    end.

Lemma halts_check_stock_try (cfg : Config) (orc : Oracle) (c : nat) :
  halts (check_stock_try cfg orc c).
Proof. unfold check_stock_try, set_store_cookie. halts_prog. Qed.

Lemma halts_check_stock_except (cfg : Config) (orc : Oracle) (e : exn) :
  halts (check_stock_except cfg orc e).
Proof. unfold check_stock_except. halts_prog. Qed.

Lemma halts_handle_shutdown (cfg : Config) (orc : Oracle) (s : Z) :
  halts (handle_shutdown cfg orc s).
Proof. unfold handle_shutdown. halts_prog. Qed.

(** ** The browser session of a check *)

Definition is_quit (e : event) : bool :=
  match e with DriverQuit => true | _ => false end.

(** The [try]/[except] part of [check_stock], for the driver of check [c]. *)
Definition check_stock_guarded (cfg : Config) (orc : Oracle) (c : nat)
  : M (option bool) :=
  try_except (check_stock_try cfg orc c)
             [WebDriverException; TimeoutError]
             (check_stock_except cfg orc).

Arguments check_stock_guarded cfg orc c : simpl never.

Lemma check_stock_guarded_quiet (p : event -> bool) (cfg : Config)
      (orc : Oracle) (c : nat) :
  quiet p (check_stock_try cfg orc c) ->
  (forall e, quiet p (check_stock_except cfg orc e)) ->
  quiet p (check_stock_guarded cfg orc c).
Proof. intros H1 H2. apply quiet_try_except; assumption. Qed.

Lemma check_stock_guarded_no_quit (cfg : Config) (orc : Oracle) (c : nat) :
  quiet is_quit (check_stock_guarded cfg orc c).
Proof.
  apply check_stock_guarded_quiet; [|intros e];
    unfold check_stock_try, check_stock_except, set_store_cookie; quiet_prog.
Qed.

Lemma check_stock_guarded_no_launch (cfg : Config) (orc : Oracle) (c : nat) :
  quiet is_launch (check_stock_guarded cfg orc c).
Proof.
  apply check_stock_guarded_quiet; [|intros e];
    unfold check_stock_try, check_stock_except, set_store_cookie; quiet_prog.
Qed.

(** A check whose driver was created, cut at its [finally]. *)
Lemma check_stock_with_driver (cfg : Config) (orc : Oracle) (w : World) :
  chrome_at orc (checks w) = None ->
  exists r w1 body,
    check_stock_guarded cfg orc (checks w) (tick_checks w) = mkOut r w1 body /\
    r <> Running /\
    check_stock cfg orc w =
      mkOut (match r with
             | Ret (Some b) => Ret b
             | Ret None => Ret false
             | Raise e => Raise e
             | Running => Running
             end) w1
            (ChromeNew ["--headless"; "--disable-gpu"; "--no-sandbox"]
             :: body ++ [DriverQuit]).
Proof.
  intros Hc.
  pose proof (halts_try_except _ [WebDriverException; TimeoutError] _
                (halts_check_stock_try cfg orc (checks w))
                (halts_check_stock_except cfg orc) (tick_checks w)) as Hh.
  fold (check_stock_guarded cfg orc (checks w)) in Hh.
  unfold check_stock.
  unfold bind at 1 2 3, get, modify, extcall, bind at 1, emit. simpl.
  rewrite Hc. simpl. unfold bind, try_finally, emit, ret.
  change (try_except (check_stock_try cfg orc (checks w))
            [WebDriverException; TimeoutError] (check_stock_except cfg orc)
            (tick_checks w))
    with (check_stock_guarded cfg orc (checks w) (tick_checks w)).
  destruct (check_stock_guarded cfg orc (checks w) (tick_checks w))
    as [r w1 body].
  exists r, w1, body. split; [reflexivity|]. split; [exact Hh|].
  destruct r as [[b|]|e|]; simpl in *; try congruence;
    rewrite ?app_nil_r; reflexivity.
Qed.

(** X1.  Whenever the driver of a check was created, [driver.quit()] is
    called exactly once, as the last thing the check does, however the
    check ends (a return, a handled fetch error, an exception that
    propagates); no second driver is created meanwhile.  When
    [webdriver.Chrome] itself raises there is no driver and no [quit]. *)
Theorem driver_quit_ends_every_check
        (cfg : Config) (orc : Oracle) (w : World) :
  (chrome_at orc (checks w) = None ->
   exists body,
     out (check_stock cfg orc w) =
       (ChromeNew ["--headless"; "--disable-gpu"; "--no-sandbox"]
        :: body ++ [DriverQuit])%list /\
     filter is_quit body = [] /\ filter is_launch body = []) /\
  (forall e, chrome_at orc (checks w) = Some e ->
     res (check_stock cfg orc w) = Raise e /\
     filter is_quit (out (check_stock cfg orc w)) = []).
Proof.
  split.
  - intros Hc.
    destruct (check_stock_with_driver cfg orc w Hc) as (r & w1 & body & E & _ & ->).
    pose proof (check_stock_guarded_no_quit cfg orc (checks w) (tick_checks w)) as Q.
    pose proof (check_stock_guarded_no_launch cfg orc (checks w) (tick_checks w)) as L.
    rewrite E in Q, L. simpl in Q, L.
    exists body. auto.
  - intros e Hc. rewrite (check_stock_no_driver cfg orc w e Hc). auto.
Qed.

(** A page load that times out: the driver is still quit. *)
Lemma driver_quit_ends_every_check_witness :
  exists body,
    out (check_stock Scenario.cfg Scenario.driver_times_out Scenario.start) =
      (ChromeNew ["--headless"; "--disable-gpu"; "--no-sandbox"]
       :: body ++ [DriverQuit])%list /\
    filter is_quit body = [] /\ filter is_launch body = [].
Proof.
  exact (proj1 (driver_quit_ends_every_check
                  Scenario.cfg Scenario.driver_times_out Scenario.start)
               eq_refl).
Defined.

(** ** The parts of [main] *)

(** The [try] statement of [main]: the loop, the [except] and the
    [finally]. *)
Definition main_guarded (cfg : Config) (orc : Oracle) (fuel : nat) : M unit :=
  try_finally
    (try_except (main_loop cfg orc fuel) [KeyboardInterrupt]
       (fun _ => emit (Log INFO "Received keyboard interrupt, stopping...")))
    (emit (Log INFO "Microcenter Stock Checker stopped") ;;
     send_push orc
       ("Microcenter Stock Checker service has stopped." ++ PyStr.nl ++
        "Monitoring is no longer active.")
       "Service Stopped" (PRODUCT_URL cfg) ;;
     send_email orc
       "Microcenter Stock Checker Service Stopped"
       ("The Microcenter Stock Checker service has stopped." ++ PyStr.nl ++
        "Monitoring is no longer active.")
       (PRODUCT_URL cfg)).

Arguments main_guarded cfg orc fuel : simpl never.

(** [main] after [last_heartbeat = start_time]. *)
Definition main_after_start (cfg : Config) (orc : Oracle) (fuel : nat)
  : M unit :=
  send_push orc
    ("Microcenter Stock Checker service has started successfully." ++
     PyStr.nl ++ "Click to view the monitored product.")
    "Service Started" (PRODUCT_URL cfg) ;;
  send_email orc
    "Microcenter Stock Checker Service Started"
    ("The Microcenter Stock Checker service has started successfully." ++
     PyStr.nl ++ "Monitoring the following product:")
    (PRODUCT_URL cfg) ;;
  main_guarded cfg orc fuel.

Arguments main_after_start cfg orc fuel : simpl never.

(** ** What the globals never do *)

(** A relation between the world before and after that holds across
    every update the program makes holds across the program. *)
Section Keeps.

Variable R : World -> World -> Prop.
Hypothesis R_refl : forall w, R w w.
Hypothesis R_trans : forall a b c, R a b -> R b c -> R a c.

Definition keeps {A} (m : M A) : Prop := forall w, R w (world (m w)).

Lemma keeps_ret {A} (a : A) : keeps (ret a).
Proof. intros w. apply R_refl. Qed.

Lemma keeps_raise {A} (e : exn) : keeps (@raise A e).
Proof. intros w. apply R_refl. Qed.

Lemma keeps_still_running {A} : keeps (@still_running A).
Proof. intros w. apply R_refl. Qed.

Lemma keeps_get {A} (f : World -> A) : keeps (get f).
Proof. intros w. apply R_refl. Qed.

Lemma keeps_emit (e : event) : keeps (emit e).
Proof. intros w. apply R_refl. Qed.

Lemma keeps_modify (f : World -> World) :
  (forall w, R w (f w)) -> keeps (modify f).
Proof. intros H w. apply H. Qed.

Lemma keeps_bind {A B} (m : M A) (f : A -> M B) :
  keeps m -> (forall a, keeps (f a)) -> keeps (bind m f).
Proof.
  intros Hm Hf w. unfold bind. specialize (Hm w).
  destruct (m w) as [[a|e|] w1 o1]; simpl in *; try exact Hm.
  specialize (Hf a w1). destruct (f a w1). simpl in *.
  eapply R_trans; eassumption.
Qed.

Lemma keeps_extcall (ev : event) (answer : option exn) :
  keeps (extcall ev answer).
Proof.
  apply keeps_bind; [apply keeps_emit|]. intros _.
  destruct answer; [apply keeps_raise | apply keeps_ret].
Qed.

Lemma keeps_try_except {A} (body : M A) (classes : list exn_class)
      (handler : exn -> M A) :
  keeps body -> (forall e, keeps (handler e)) ->
  keeps (try_except body classes handler).
Proof.
  intros Hb Hh w. unfold try_except. specialize (Hb w).
  destruct (body w) as [[a|e|] w1 o1]; simpl in *; try exact Hb.
  destruct (caught_by classes e); [|exact Hb].
  specialize (Hh e w1). destruct (handler e w1). simpl in *.
  eapply R_trans; eassumption.
Qed.

Lemma keeps_try_finally {A} (body : M A) (fin : M unit) :
  keeps body -> keeps fin -> keeps (try_finally body fin).
Proof.
  intros Hb Hf w. unfold try_finally. specialize (Hb w).
  destruct (body w) as [[a|e|] w1 o1]; simpl in *; try exact Hb;
    specialize (Hf w1); destruct (fin w1) as [[[]|e'|] w2 o2]; simpl in *;
    eapply R_trans; eassumption.
Qed.

Lemma keeps_timedelta_hours (h : Z) : keeps (timedelta_hours h).
Proof.
  unfold timedelta_hours. destruct (_ >? _); [apply keeps_raise | apply keeps_ret].
Qed.

Lemma keeps_sleep (secs : Z) : keeps (sleep secs).
Proof.
  unfold sleep. destruct (secs <? 0); [apply keeps_raise | apply keeps_emit].
Qed.

(** The updates of the program. *)
Hypothesis R_tick_clock : forall w, R w (tick_clock w).
Hypothesis R_tick_posts : forall w, R w (tick_posts w).
Hypothesis R_tick_smtp : forall w, R w (tick_smtp w).
Hypothesis R_tick_checks : forall w, R w (tick_checks w).
Hypothesis R_stop : forall w, R w (set_running false w).
Hypothesis R_reset : forall w, R w (set_consecutive_failures 0 w).
Hypothesis R_count :
  forall w, R w (set_consecutive_failures (consecutive_failures w + 1) w).
Hypothesis R_beat : forall t w, R w (set_last_heartbeat (Some t) w).

Lemma keeps_now (orc : Oracle) : keeps (now orc).
Proof.
  unfold now. apply keeps_bind; [apply keeps_get | intros n].
  apply keeps_bind; [apply keeps_modify, R_tick_clock | intros _].
  apply keeps_ret.
Qed.

Ltac keeps_step :=
  lazymatch goal with
  | |- keeps (ret _) => apply keeps_ret
  | |- keeps (raise _) => apply keeps_raise
  | |- keeps still_running => apply keeps_still_running
  | |- keeps (get _) => apply keeps_get
  | |- keeps (modify _) =>
      apply keeps_modify;
      first [ exact R_tick_clock | exact R_tick_posts | exact R_tick_smtp
            | exact R_tick_checks | exact R_stop | exact R_reset
            | exact R_count | apply R_beat ]
  | |- keeps (now _) => apply keeps_now
  | |- keeps (timedelta_hours _) => apply keeps_timedelta_hours
  | |- keeps (sleep _) => apply keeps_sleep
  | |- keeps (emit _) => apply keeps_emit
  | |- keeps (extcall _ _) => apply keeps_extcall
  | |- keeps (try_except _ _ _) =>
      apply keeps_try_except; [|intros ?; cbv beta]
  | |- keeps (try_finally _ _) => apply keeps_try_finally
  | |- keeps (bind _ _) => apply keeps_bind; [|intros ?; cbv beta]
  | |- keeps (if ?b then _ else _) => destruct b
  | |- keeps (match ?x with Some _ => _ | None => _ end) => destruct x
  end.

Lemma keeps_send_push (orc : Oracle) (message title : string)
      (url : option string) : keeps (send_push orc message title url).
Proof. unfold send_push. repeat keeps_step. Qed.

Lemma keeps_send_email (orc : Oracle) (subject body : string)
      (url : option string) : keeps (send_email orc subject body url).
Proof. unfold send_email. repeat keeps_step. Qed.

Ltac keeps_prog :=
  repeat lazymatch goal with
    | |- keeps (send_push _ _ _ _) => apply keeps_send_push
    | |- keeps (send_email _ _ _ _) => apply keeps_send_email
    | |- keeps _ => keeps_step
    end.

Variable cfg : Config.
Variable orc : Oracle.

Lemma keeps_check_stock : keeps (check_stock cfg orc).
Proof.
  unfold check_stock, check_stock_try, check_stock_except, set_store_cookie.
  keeps_prog.
Qed.

Lemma keeps_send_heartbeat : keeps (send_heartbeat cfg orc).
Proof. unfold send_heartbeat. keeps_prog. Qed.

Lemma keeps_handle_shutdown (s : Z) : keeps (handle_shutdown cfg orc s).
Proof. unfold handle_shutdown. keeps_prog. Qed.

Lemma keeps_deliver (signums : list Z) : keeps (deliver cfg orc signums).
Proof.
  induction signums as [|s rest IH]; simpl; [apply keeps_ret|].
  apply keeps_bind; [apply keeps_handle_shutdown | intros _; exact IH].
Qed.

Lemma keeps_main_loop (fuel : nat) : keeps (main_loop cfg orc fuel).
Proof.
  induction fuel as [|fuel IH]; simpl.
  - keeps_prog.
  - repeat lazymatch goal with
      | |- keeps (check_stock _ _) => apply keeps_check_stock
      | |- keeps (deliver _ _ _) => apply keeps_deliver
      | |- keeps (send_heartbeat _ _) => apply keeps_send_heartbeat
      | |- keeps (main_loop _ _ _) => exact IH
      | |- keeps (send_push _ _ _ _) => apply keeps_send_push
      | |- keeps (send_email _ _ _ _) => apply keeps_send_email
      | |- keeps _ => keeps_step
      end.
Qed.

Lemma keeps_main (fuel : nat) : keeps (main cfg orc fuel).
Proof.
  unfold main.
  repeat lazymatch goal with
    | |- keeps (main_loop _ _ _) => apply keeps_main_loop
    | |- keeps (send_push _ _ _ _) => apply keeps_send_push
    | |- keeps (send_email _ _ _ _) => apply keeps_send_email
    | |- keeps _ => keeps_step
    end.
Qed.

Lemma keeps_main_after_start (fuel : nat) :
  keeps (main_after_start cfg orc fuel).
Proof.
  unfold main_after_start, main_guarded.
  repeat lazymatch goal with
    | |- keeps (main_loop _ _ _) => apply keeps_main_loop
    | |- keeps (send_push _ _ _ _) => apply keeps_send_push
    | |- keeps (send_email _ _ _ _) => apply keeps_send_email
    | |- keeps _ => keeps_step
    end.
Qed.

End Keeps.

(** [f] reads the same in both worlds. *)
Definition same_on {A} (f : World -> A) (w w' : World) : Prop := f w' = f w.

Lemma same_on_refl {A} (f : World -> A) (w : World) : same_on f w w.
Proof. reflexivity. Qed.

Lemma same_on_trans {A} (f : World -> A) (a b c : World) :
  same_on f a b -> same_on f b c -> same_on f a c.
Proof. unfold same_on. congruence. Qed.

(** X2.  Each function writes only the global it declares: [check_stock]
    leaves [running] and [last_heartbeat] as they were, [send_heartbeat]
    leaves [running] and [consecutive_failures], and the signal handler,
    however many signals are delivered, leaves [consecutive_failures] and
    [last_heartbeat]; this holds however the call ends, an exception that
    propagates included. *)
Theorem each_global_has_one_writer
        (cfg : Config) (orc : Oracle) (w : World) :
  (running (world (check_stock cfg orc w)) = running w /\
   last_heartbeat (world (check_stock cfg orc w)) = last_heartbeat w) /\
  (running (world (send_heartbeat cfg orc w)) = running w /\
   consecutive_failures (world (send_heartbeat cfg orc w)) =
     consecutive_failures w) /\
  (forall signums,
     consecutive_failures (world (deliver cfg orc signums w)) =
       consecutive_failures w /\
     last_heartbeat (world (deliver cfg orc signums w)) = last_heartbeat w).
Proof.
  split; [|split; [|intros signums]]; split.
  - apply (keeps_check_stock (same_on running)); intros; try reflexivity.
    eapply same_on_trans; eassumption.
  - apply (keeps_check_stock (same_on last_heartbeat)); intros;
      try reflexivity.
    eapply same_on_trans; eassumption.
  - apply (keeps_send_heartbeat (same_on running)); intros; try reflexivity.
    eapply same_on_trans; eassumption.
  - apply (keeps_send_heartbeat (same_on consecutive_failures)); intros;
      try reflexivity.
    eapply same_on_trans; eassumption.
  - apply (keeps_deliver (same_on consecutive_failures)); intros;
      try reflexivity.
    eapply same_on_trans; eassumption.
  - apply (keeps_deliver (same_on last_heartbeat)); intros; try reflexivity.
    eapply same_on_trans; eassumption.
Qed.

(** [running] is not true after unless it was true before. *)
Definition stays_stopped (w w' : World) : Prop :=
  running w = false -> running w' = false.

(** X3.  Nothing sets [running] back to [True]: once it is false it is false
    after any check, any delivery of signals, any run of the loop and any
    run of [main]. *)
Theorem running_is_never_set_again
        (cfg : Config) (orc : Oracle) (fuel : nat) (w : World) :
  running w = false ->
  running (world (check_stock cfg orc w)) = false /\
  (forall signums, running (world (deliver cfg orc signums w)) = false) /\
  running (world (main_loop cfg orc fuel w)) = false /\
  running (world (main cfg orc fuel w)) = false.
Proof.
  intros H.
  assert (T : forall a b c, stays_stopped a b -> stays_stopped b c ->
                            stays_stopped a c).
  { unfold stays_stopped. auto. }
  split; [|split; [intros signums|split]].
  - apply (keeps_check_stock stays_stopped); unfold stays_stopped; auto.
  - apply (keeps_deliver stays_stopped); unfold stays_stopped; auto.
  - apply (keeps_main_loop stays_stopped); unfold stays_stopped; auto.
  - apply (keeps_main stays_stopped); unfold stays_stopped; auto.
Qed.

(** A signal was handled before [main] was called. *)
Lemma running_is_never_set_again_witness :
  running (world (main Scenario.cfg (Scenario.unconfigured Scenario.no_marker)
                       3 (set_running false Scenario.start))) = false.
Proof.
  apply (running_is_never_set_again
           Scenario.cfg (Scenario.unconfigured Scenario.no_marker) 3
           (set_running false Scenario.start) eq_refl).
Defined.

(** The failure counter is not negative after unless it was before. *)
Definition stays_counted (w w' : World) : Prop :=
  0 <= consecutive_failures w -> 0 <= consecutive_failures w'.

(** X4.  [consecutive_failures] is never negative: starting from a
    non-negative count (the module sets 0) it is non-negative after any
    check, any run of the loop and any run of [main], whatever the pages,
    the errors and the signals. *)
Theorem failure_count_is_never_negative
        (cfg : Config) (orc : Oracle) (fuel : nat) (w : World) :
  0 <= consecutive_failures w ->
  0 <= consecutive_failures (world (check_stock cfg orc w)) /\
  0 <= consecutive_failures (world (main_loop cfg orc fuel w)) /\
  0 <= consecutive_failures (world (main cfg orc fuel w)).
Proof.
  intros H.
  assert (T : forall a b c, stays_counted a b -> stays_counted b c ->
                            stays_counted a c).
  { unfold stays_counted. auto. }
  split; [|split].
  - apply (keeps_check_stock stays_counted); unfold stays_counted; simpl;
      auto; intros; lia.
  - apply (keeps_main_loop stays_counted); unfold stays_counted; simpl;
      auto; intros; lia.
  - apply (keeps_main stays_counted); unfold stays_counted; simpl;
      auto; intros; lia.
Qed.

(** Pages without marker from the start of the module. *)
Lemma failure_count_is_never_negative_witness :
  0 <= consecutive_failures
         (world (main Scenario.cfg (Scenario.unconfigured Scenario.no_marker)
                      3 Scenario.start)).
Proof.
  apply (failure_count_is_never_negative
           Scenario.cfg (Scenario.unconfigured Scenario.no_marker) 3
           Scenario.start).
  discriminate.
Defined.

(** ** The push request *)

Definition is_post (e : event) : bool :=
  match e with Post _ _ _ => true | _ => false end.

(** [payload.get(key)] on the form data of a request. *)
Fixpoint form_field (key : string) (data : list (string * string)) : option string :=
  match data with
  | [] => None
  | (k, v) :: rest => if String.eqb key k then Some v else form_field key rest
  end.

(** X5.  With both Pushover credentials set, a call of [send_push] makes
    exactly one request (there is no retry): a POST to the Pushover
    endpoint with a 5 s timeout whose form data carries the token, the
    user, the message and the title of the call, and carries [url] and
    [url_title = "View Product"] exactly when the [url] argument is a
    non-empty string. *)
Theorem push_request_carries_the_call
        (orc : Oracle) (message title : string) (url : option string)
        (w : World) :
  PyStr.truthy (getenv orc "PUSHOVER_TOKEN") = true ->
  PyStr.truthy (getenv orc "PUSHOVER_USER") = true ->
  exists data,
    filter is_post (out (send_push orc message title url w)) =
      [Post "https://api.pushover.net/1/messages.json" data 5] /\
    form_field "token" data = getenv orc "PUSHOVER_TOKEN" /\
    form_field "user" data = getenv orc "PUSHOVER_USER" /\
    form_field "message" data = Some message /\
    form_field "title" data = Some title /\
    form_field "url" data = (if PyStr.truthy url then url else None) /\
    form_field "url_title" data =
      (if PyStr.truthy url then Some "View Product" else None).
Proof.
  intros Ht Hu. unfold send_push, bind at 1, emit at 1. simpl.
  rewrite Ht, Hu. simpl.
  unfold try_except, bind, get, modify, extcall, bind, emit, ret, raise. simpl.
  destruct (getenv orc "PUSHOVER_TOKEN") as [token|]; [|discriminate].
  destruct (getenv orc "PUSHOVER_USER") as [user|]; [|discriminate].
  eexists. split.
  - destruct (post_at orc (posts w)) as [e|]; simpl;
      [destruct (caught_by [RequestException] e)|]; reflexivity.
  - destruct url as [u|]; simpl; [destruct (PyStr.nonempty u)|];
      repeat split; reflexivity.
Qed.

(** The fixture of the unit tests, Pushover refusing the connection. *)
Lemma push_request_carries_the_call_witness :
  exists data,
    filter is_post
      (out (send_push (Scenario.channels_down EmptyString) "m" "t"
                      (Some Scenario.url) Scenario.start)) =
      [Post "https://api.pushover.net/1/messages.json" data 5] /\
    form_field "url" data = Some Scenario.url.
Proof.
  destruct (push_request_carries_the_call
              (Scenario.channels_down EmptyString) "m" "t" (Some Scenario.url)
              Scenario.start eq_refl eq_refl)
    as (data & H1 & _ & _ & _ & _ & H2 & _).
  exists data. split; [exact H1 | exact H2].
Defined.

(** X6.  [send_push] swallows nothing but [RequestException]: when the
    request raises an exception of another class, [send_push] raises that
    exception and logs neither success nor error. *)
Theorem push_lets_other_exceptions_through
        (orc : Oracle) (message title : string) (url : option string)
        (w : World) (e : exn) :
  PyStr.truthy (getenv orc "PUSHOVER_TOKEN") = true ->
  PyStr.truthy (getenv orc "PUSHOVER_USER") = true ->
  post_at orc (posts w) = Some e ->
  push_transport_error e = false ->
  res (send_push orc message title url w) = Raise e /\
  filter (fun ev => match ev with Log _ _ => true | _ => false end)
         (out (send_push orc message title url w)) = [].
Proof.
  intros Ht Hu Hp He. unfold send_push, bind at 1, emit at 1. simpl.
  rewrite Ht, Hu. simpl.
  unfold try_except, bind, get, modify, extcall, bind, emit, ret, raise. simpl.
  rewrite Hp. simpl.
  assert (C : caught_by [RequestException] e = false).
  { unfold caught_by, push_transport_error in *. simpl. rewrite He. reflexivity. }
  rewrite C. simpl. split; reflexivity.
Qed.

(** The fixture of the unit tests with a request that raises [e]. *)
Definition push_raises (e : exn) : Oracle :=
  mkOracle Scenario.clock Scenario.stamp Scenario.env
           (fun _ => Some e)
           (fun _ _ => None) (fun _ => None) (fun _ _ => None)
           (fun _ => EmptyString) (fun _ => []) (fun _ => []).

Definition pool_exhausted : exn := mkExn MaxRetryError "max retries exceeded".

Lemma push_lets_other_exceptions_through_witness :
  res (send_push (push_raises pool_exhausted) "m" "t" None Scenario.start) =
    Raise pool_exhausted.
Proof.
  apply (push_lets_other_exceptions_through
           (push_raises pool_exhausted) "m" "t" None Scenario.start
           pool_exhausted eq_refl eq_refl eq_refl eq_refl).
Defined.

(** ** The SMTP session *)

(** The list comprehension that reads [EMAIL_RECIPIENTS]: split at the
    commas, strip each piece, drop the empty ones. *)
Definition parse_recipients (raw : option string) : list string :=
  filter PyStr.nonempty
    (map PyStr.strip (PyStr.split ","%char (or_empty raw))).

(** [all([email_user, email_password, email_recipients])] *)
Definition email_settings_complete (orc : Oracle) : bool :=
  PyStr.truthy (getenv orc "EMAIL_USER") &&
  PyStr.truthy (getenv orc "EMAIL_PASSWORD") &&
  match parse_recipients (getenv orc "EMAIL_RECIPIENTS") with
  | [] => false
  | _ => true
  end.

Definition is_smtp (e : event) : bool :=
  match e with
  | SmtpConnect _ _ | StartTLS | Login _ _ | Sendmail _ _ _ | SmtpQuit => true
  | _ => false
  end.


(** ** The recipients *)

(** [c in s] for a character. *)
Fixpoint has_char (c : ascii) (s : string) : bool :=
  match s with
  | EmptyString => false
  | String a t => Ascii.eqb a c || has_char c t
  end.

(** An address as [send_email] uses it: not empty, no white-space
    character (of [PyStr.WHITESPACE], ASCII or not) at its start or at its
    end, and no comma. *)
Definition clean_address (r : string) : Prop :=
  r <> EmptyString /\
  (forall cp rest, In cp PyStr.WHITESPACE ->
     r <> PyStr.chr cp ++ rest /\ r <> rest ++ PyStr.chr cp) /\
  has_char ","%char r = false.

Lemma append_cons (c : ascii) (a b : string) :
  String c a ++ b = String c (a ++ b).
Proof. reflexivity. Qed.

Lemma has_char_app (c : ascii) (a b : string) :
  has_char c (a ++ b) = has_char c a || has_char c b.
Proof.
  induction a as [|x a IH]; simpl; [reflexivity|].
  rewrite IH, orb_assoc. reflexivity.
Qed.

(** [strip] leaves a piece of the string. *)
Lemma strip_keeps_no_char (c : ascii) (s : string) :
  has_char c s = false -> has_char c (PyStr.strip s) = false.
Proof.
  intros H. unfold PyStr.strip.
  destruct (lstrip_suffix s) as [a Ha].
  destruct (rstrip_prefix (PyStr.lstrip s)) as [b Hb].
  rewrite Ha, Hb, !has_char_app in H.
  apply orb_false_iff in H as [_ H]. apply orb_false_iff in H as [H _].
  exact H.
Qed.

(** What [leading_space] and [trailing_space] test. *)
Lemma leading_space_false (r : string) :
  PyStr.leading_space r = false <->
  forall cp rest, In cp PyStr.WHITESPACE -> r <> PyStr.chr cp ++ rest.
Proof.
  unfold PyStr.leading_space, PyStr.chr. split.
  - intros H cp rest Hcp E.
    destruct (PyStr.after_any PyStr.spaces (list_ascii_of_string r)) eqn:A;
      [discriminate|].
    apply (after_any_none _ _ A (PyStr.utf8 cp) (list_ascii_of_string rest)).
    + apply in_map, Hcp.
    + rewrite E, list_ascii_of_string_app, list_ascii_of_string_of_list_ascii.
      reflexivity.
  - intros H.
    destruct (PyStr.after_any PyStr.spaces (list_ascii_of_string r)) as [x|] eqn:A;
      [|reflexivity].
    exfalso. destruct (after_any_some _ _ _ A) as (p & Hp & E).
    apply in_map_iff in Hp as (cp & <- & Hcp).
    apply (H cp (string_of_list_ascii x) Hcp).
    rewrite <- string_of_list_ascii_app, <- E.
    symmetry. apply string_of_list_ascii_of_string.
Qed.

Lemma trailing_space_false (r : string) :
  PyStr.trailing_space r = false <->
  forall cp rest, In cp PyStr.WHITESPACE -> r <> rest ++ PyStr.chr cp.
Proof.
  unfold PyStr.trailing_space, PyStr.chr. split.
  - intros H cp rest Hcp E.
    destruct (PyStr.after_any (map (@rev ascii) PyStr.spaces)
                (rev (list_ascii_of_string r))) eqn:A; [discriminate|].
    apply (after_any_none _ _ A (rev (PyStr.utf8 cp))
             (rev (list_ascii_of_string rest))).
    + apply in_map, in_map, Hcp.
    + rewrite E, list_ascii_of_string_app, list_ascii_of_string_of_list_ascii.
      apply rev_app_distr.
  - intros H.
    destruct (PyStr.after_any (map (@rev ascii) PyStr.spaces)
                (rev (list_ascii_of_string r))) as [x|] eqn:A; [|reflexivity].
    exfalso. destruct (after_any_some _ _ _ A) as (p & Hp & E).
    apply in_map_iff in Hp as (q & <- & Hq).
    apply in_map_iff in Hq as (cp & <- & Hcp).
    apply (H cp (string_of_list_ascii (rev x)) Hcp).
    rewrite <- string_of_list_ascii_app, <- (rev_involutive (PyStr.utf8 cp)),
      <- rev_app_distr, <- E, rev_involutive.
    symmetry. apply string_of_list_ascii_of_string.
Qed.

Lemma split_not_nil (sep : ascii) (s : string) : PyStr.split sep s <> [].
Proof.
  induction s as [|a t IH]; simpl; [discriminate|].
  destruct (Ascii.eqb a sep); [discriminate|].
  destruct (PyStr.split sep t); [contradiction | discriminate].
Qed.

(** No piece of [s.split(sep)] contains [sep]. *)
Lemma split_pieces_without_sep (sep : ascii) (s : string) :
  Forall (fun p => has_char sep p = false) (PyStr.split sep s).
Proof.
  induction s as [|a t IH]; simpl.
  - constructor; [reflexivity | constructor].
  - destruct (Ascii.eqb a sep) eqn:E.
    + constructor; [reflexivity | exact IH].
    + destruct (PyStr.split sep t) as [|h r]; [repeat constructor; simpl; rewrite E; reflexivity|].
      inversion IH as [|? ? Hh Hr]; subst.
      constructor; [simpl; rewrite E, Hh; reflexivity | exact Hr].
Qed.

(** A no-break space (U+00A0) and an em space (U+2003), as they stand in
    a string. *)
Definition nbsp : string := PyStr.chr 0xA0.
Definition emsp : string := PyStr.chr 0x2003.

(** White space that is not ASCII is stripped like the rest: a value of
    nothing but such white space holds no recipient, and an address keeps
    none of it. *)
Lemma recipients_behind_white_space :
  parse_recipients (Some (nbsp ++ "," ++ emsp)) = [] /\
  parse_recipients (Some (nbsp ++ "a@b.com" ++ emsp ++ ", c@d.com ")) =
    ["a@b.com"; "c@d.com"].
Proof. vm_compute. split; reflexivity. Qed.

(** A piece of the split, stripped and not empty, is clean. *)
Lemma stripped_piece_is_clean (p : string) :
  has_char ","%char p = false ->
  PyStr.nonempty (PyStr.strip p) = true ->
  clean_address (PyStr.strip p).
Proof.
  intros Hp E. split; [|split].
  - intros N. rewrite N in E. discriminate.
  - destruct (strip_is_stripped p) as [Hs Ht].
    intros cp rest Hcp. split.
    + apply (proj1 (leading_space_false _) Hs cp rest Hcp).
    + apply (proj1 (trailing_space_false _) Ht cp rest Hcp).
  - apply strip_keeps_no_char, Hp.
Qed.

(** X8.  Every recipient that [send_email] reads from [EMAIL_RECIPIENTS] is
    a non-empty string that neither starts nor ends with a white-space
    character, ASCII or not, and has no comma in it, whatever the variable
    holds (also when it is unset). *)
Theorem parsed_recipients_are_clean (raw : option string) :
  Forall clean_address (parse_recipients raw).
Proof.
  unfold parse_recipients.
  pose proof (split_pieces_without_sep ","%char (or_empty raw)) as H.
  induction H as [|p l Hp Hl IH]; simpl; [constructor|].
  destruct (PyStr.nonempty (PyStr.strip p)) eqn:E; [|exact IH].
  constructor; [|exact IH].
  apply stripped_piece_is_clean; assumption.
Qed.

Lemma split_without_sep (sep : ascii) (a : string) :
  has_char sep a = false -> PyStr.split sep a = [a].
Proof.
  induction a as [|c a IH]; simpl; [reflexivity|].
  intros H. apply orb_false_iff in H as [Hc Ha].
  rewrite Hc, (IH Ha). reflexivity.
Qed.

Lemma split_append (sep : ascii) (a t : string) :
  has_char sep a = false ->
  PyStr.split sep (a ++ String sep t) = a :: PyStr.split sep t.
Proof.
  induction a as [|c a IH]; intros H.
  - change (EmptyString ++ String sep t) with (String sep t). simpl.
    rewrite Ascii.eqb_refl. reflexivity.
  - simpl in H. apply orb_false_iff in H as [Hc Ha].
    rewrite append_cons. simpl. rewrite Hc, (IH Ha). reflexivity.
Qed.

(** Splitting the joined list and stripping the pieces strips the list. *)
Lemma split_of_join (rs : list string) :
  Forall (fun r => has_char ","%char r = false) rs ->
  rs <> [] ->
  map PyStr.strip (PyStr.split ","%char (PyStr.join ", " rs)) =
  map PyStr.strip rs.
Proof.
  induction rs as [|x rs IH]; intros H N; [contradiction|].
  inversion H as [|? ? Hx Hrs]; subst.
  destruct rs as [|y r].
  - simpl. rewrite (split_without_sep _ x Hx). reflexivity.
  - change (PyStr.join ", " (x :: y :: r))
      with (x ++ String ","%char (String " "%char (PyStr.join ", " (y :: r)))).
    rewrite (split_append _ x _ Hx).
    assert (IH' := IH Hrs ltac:(discriminate)).
    change (PyStr.split ","%char (String " "%char (PyStr.join ", " (y :: r))))
      with (match PyStr.split ","%char (PyStr.join ", " (y :: r)) with
            | h :: tl => String " "%char h :: tl
            | [] => [String " "%char EmptyString]
            end).
    destruct (PyStr.split ","%char (PyStr.join ", " (y :: r))) as [|h tl] eqn:E.
    + exfalso. exact (split_not_nil _ _ E).
    + cbn [map] in *. rewrite strip_after_space, IH'. reflexivity.
Qed.

(** The tests that make an address clean. *)
Lemma clean_by_test (r : string) :
  PyStr.nonempty r = true ->
  PyStr.leading_space r = false ->
  PyStr.trailing_space r = false ->
  has_char ","%char r = false ->
  clean_address r.
Proof.
  intros Hn Hl Ht Hc. split; [|split; [|exact Hc]].
  - intros ->. discriminate.
  - intros cp rest Hcp. split.
    + apply (proj1 (leading_space_false r) Hl cp rest Hcp).
    + apply (proj1 (trailing_space_false r) Ht cp rest Hcp).
Qed.

(** X9.  The [To] header and [EMAIL_RECIPIENTS] are two readings of one
    format: a list of clean addresses joined by [", "] is parsed back to
    that list, so the [To] header of a message, read as [EMAIL_RECIPIENTS],
    gives its envelope recipients again. *)
Theorem recipients_survive_the_to_header :
  (forall rs, Forall clean_address rs ->
              parse_recipients (Some (PyStr.join ", " rs)) = rs) /\
  (forall raw,
     parse_recipients (Some (PyStr.join ", " (parse_recipients raw))) =
     parse_recipients raw).
Proof.
  assert (R : forall rs, Forall clean_address rs ->
                parse_recipients (Some (PyStr.join ", " rs)) = rs).
  { intros rs H. destruct rs as [|x rs]; [reflexivity|].
    unfold parse_recipients, or_empty.
    rewrite split_of_join; [| |discriminate].
    - induction H as [|r l (Hn & Hw & _) Hl IH]; [reflexivity|].
      cbn [map filter].
      rewrite (strip_stripped r);
        [|apply leading_space_false; intros cp rest Hcp; apply (Hw cp rest Hcp)
         |apply trailing_space_false; intros cp rest Hcp; apply (Hw cp rest Hcp)].
      destruct r; [contradiction|]. cbn [PyStr.nonempty]. rewrite IH.
      reflexivity.
    - apply (Forall_impl _ (fun r (C : clean_address r) => proj2 (proj2 C))), H. }
  split; [exact R|].
  intros raw. apply R. unfold parse_recipients.
  pose proof (split_pieces_without_sep ","%char (or_empty raw)) as H.
  induction H as [|p l Hp Hl IH]; simpl; [constructor|].
  destruct (PyStr.nonempty (PyStr.strip p)) eqn:E; [|exact IH].
  constructor; [|exact IH].
  apply stripped_piece_is_clean; assumption.
Qed.

(** The recipients of the unit tests' fixture. *)
Lemma recipients_survive_the_to_header_witness :
  parse_recipients (Some (PyStr.join ", " ["c@d.com"; "e@f.com"])) =
  ["c@d.com"; "e@f.com"].
Proof.
  apply (proj1 recipients_survive_the_to_header).
  constructor; [apply clean_by_test; reflexivity|].
  constructor; [apply clean_by_test; reflexivity | constructor].
Defined.

(** ** The heartbeat message *)

(** X10.  The uptime line of a heartbeat tells the uptime in whole hours
    and nothing else: the hours shown are between 0 and 23, days and hours
    together are the uptime divided by one hour (rounded down, also for a
    clock that went backwards), and two uptimes with the same number of
    whole hours give the same message. *)
Theorem uptime_line_counts_whole_hours (orc : Oracle) :
  (forall uptime,
     0 <= td_seconds uptime / 3600 <= 23 /\
     td_days uptime * 24 + td_seconds uptime / 3600 = uptime / 3600000000) /\
  (forall u1 u2 checked,
     u1 / 3600000000 = u2 / 3600000000 ->
     heartbeat_message orc u1 checked = heartbeat_message orc u2 checked).
Proof.
  split.
  - intros uptime. unfold td_days, td_seconds.
    Z.div_mod_to_equations. lia.
  - intros u1 u2 checked H. unfold heartbeat_message.
    assert (D : td_days u1 = td_days u2).
    { unfold td_days. Z.div_mod_to_equations. lia. }
    assert (S : td_seconds u1 / 3600 = td_seconds u2 / 3600).
    { unfold td_seconds. Z.div_mod_to_equations. lia. }
    rewrite D, S. reflexivity.
Qed.

(** 25 h and 25 h 59 min 59 s are both reported as 1 day, 1 hour. *)
Lemma uptime_line_counts_whole_hours_witness :
  heartbeat_message (Scenario.unconfigured Scenario.out_of_stock)
                    (25 * Scenario.hour) 0 =
  heartbeat_message (Scenario.unconfigured Scenario.out_of_stock)
                    (26 * Scenario.hour - 1000000) 0.
Proof.
  apply (proj2 (uptime_line_counts_whole_hours
                  (Scenario.unconfigured Scenario.out_of_stock))).
  reflexivity.
Defined.

(** X11.  A heartbeat sent while [last_heartbeat] is still [None] (before
    [main] has set it) reports an uptime of 0 days, 0 hours.  It reads the
    clock twice: the first reading is the [Last check] time of the message
    and the second becomes [last_heartbeat]. *)
Theorem first_heartbeat_reports_no_uptime
        (cfg : Config) (orc : Oracle) (w : World) :
  transport_errors_only orc ->
  last_heartbeat w = None ->
  exists text,
    text =
      "Microcenter Stock Checker service is running normally." ++ PyStr.nl ++
      "Uptime: 0 days, 0 hours" ++ PyStr.nl ++
      "Last check: " ++ strftime orc (now_at orc (clock_reads w)) /\
    res (send_heartbeat cfg orc w) = Ret tt /\
    notifications (out (send_heartbeat cfg orc w)) =
      [CallPush text "Service Heartbeat" (PRODUCT_URL cfg);
       CallEmail "Microcenter Stock Checker Service Heartbeat" text
                 (PRODUCT_URL cfg)] /\
    last_heartbeat (world (send_heartbeat cfg orc w)) =
      Some (now_at orc (1 + clock_reads w)) /\
    clock_reads (world (send_heartbeat cfg orc w)) = (2 + clock_reads w)%nat.
Proof.
  intros transport Hl. eexists. split; [reflexivity|].
  unfold send_heartbeat, now, bind, get, modify, ret. simpl.
  rewrite Hl. simpl.
  step_push transport. step_email transport.
  split_globals. simpl.
  repeat split; try congruence.
  trace_facts.
Qed.

(** The module as loaded, and a clock that ticks once a second. *)
Lemma first_heartbeat_reports_no_uptime_witness :
  last_heartbeat
    (world (send_heartbeat Scenario.cfg
              (Scenario.unconfigured Scenario.out_of_stock) Scenario.start)) =
  Some 1000000.
Proof.
  destruct (first_heartbeat_reports_no_uptime
              Scenario.cfg (Scenario.unconfigured Scenario.out_of_stock)
              Scenario.start
              (Scenario.no_traffic_transport
                 (Scenario.unconfigured Scenario.out_of_stock)
                 (fun _ => eq_refl) (fun _ _ => eq_refl))
              eq_refl) as (text & _ & _ & _ & H & _).
  exact H.
Defined.

(** ** The signal handler *)

(** X12.  [running = False] is the last statement of the handler: the flag
    is cleared when the handler returns, and only then.  If a notifier lets
    an exception through, the handler ends with that exception and
    [running] is what it was, so the loop has not been told to stop. *)
Theorem handler_clears_running_last
        (cfg : Config) (orc : Oracle) (signum : Z) (w : World) :
  match res (handle_shutdown cfg orc signum w) with
  | Ret _ => running (world (handle_shutdown cfg orc signum w)) = false
  | Raise _ => running (world (handle_shutdown cfg orc signum w)) = running w
  | Running => False
  end.
Proof.
  pose proof (halts_handle_shutdown cfg orc signum w) as Hh.
  assert (K : forall m t u w0,
                running (world (send_push orc m t u w0)) = running w0).
  { intros m t u.
    apply (keeps_send_push (same_on running)); intros; try reflexivity.
    eapply same_on_trans; eassumption. }
  assert (K' : forall m t u w0,
                 running (world (send_email orc m t u w0)) = running w0).
  { intros m t u.
    apply (keeps_send_email (same_on running)); intros; try reflexivity.
    eapply same_on_trans; eassumption. }
  revert Hh. unfold handle_shutdown, bind, emit, modify. simpl.
  match goal with
  | |- context [send_push ?o ?m ?t ?u ?w0] =>
      specialize (K m t u w0); destruct (send_push o m t u w0) as [[[]|e|] w1 l1]
  end; simpl in *; try congruence.
  match goal with
  | |- context [send_email ?o ?m ?t ?u ?w0] =>
      specialize (K' m t u w0); destruct (send_email o m t u w0) as [[[]|e|] w2 l2]
  end; simpl in *; congruence.
Qed.

(** ** Runs of [main] *)

Lemma start_then (a b c : event) (s1 s2 l : list event) :
  a :: b :: s1 ++ c :: s2 ++ l = ((a :: b :: s1 ++ c :: s2) ++ l)%list.
Proof. simpl. rewrite <- app_assoc. reflexivity. Qed.

Section RunsOfMain.

Variable cfg : Config.
Variable orc : Oracle.
Hypothesis transport : transport_errors_only orc.

(** [main] up to its [try]: [last_heartbeat] is set and the start
    notifications are sent. *)
Lemma main_start (fuel : nat) (w : World) :
  exists w1 l0,
    globals w1 =
      globals (set_last_heartbeat (Some (now_at orc (clock_reads w)))
                                  (tick_clock w)) /\
    notifications l0 = start_alert cfg /\
    filter is_launch l0 = [] /\ filter is_sleep l0 = [] /\
    forall r w3 l,
      main_guarded cfg orc fuel w1 = mkOut r w3 l ->
      main cfg orc fuel w = mkOut r w3 (l0 ++ l).
Proof.
  change (main cfg orc fuel)
    with (emit (Log INFO "Starting Microcenter Stock Checker loop") ;;
          start_time <- now orc ;;
          modify (set_last_heartbeat (Some start_time)) ;;
          send_push orc
            ("Microcenter Stock Checker service has started successfully." ++
             PyStr.nl ++ "Click to view the monitored product.")
            "Service Started" (PRODUCT_URL cfg) ;;
          send_email orc
            "Microcenter Stock Checker Service Started"
            ("The Microcenter Stock Checker service has started successfully." ++
             PyStr.nl ++ "Monitoring the following product:")
            (PRODUCT_URL cfg) ;;
          main_guarded cfg orc fuel).
  unfold now, bind, emit, get, modify, ret. simpl.
  step_push transport. step_email transport.
  eexists w1, _. split; [split_globals; congruence|].
  split; [|split; [|split]].
  4: { intros r w3 l E. rewrite E. f_equal. apply start_then. }
  all: trace_facts.
Qed.

(** The [try] statement once the loop has ended. *)
Lemma main_guarded_run (fuel : nat) (w1 w2 : World) (r2 : result unit)
      (l2 : list event) :
  main_loop cfg orc fuel w1 = mkOut r2 w2 l2 ->
  r2 <> Running ->
  exists w3 l3,
    main_guarded cfg orc fuel w1 = mkOut (after_except r2) w3 (l2 ++ l3) /\
    globals w3 = globals w2 /\
    notifications l3 = stopped_alert cfg /\
    filter is_launch l3 = [] /\ filter is_sleep l3 = [].
Proof.
  intros EL N. unfold main_guarded, try_finally, try_except. rewrite EL.
  destruct r2 as [[]|e|]; [| |congruence]; simpl.
  - unfold bind, emit. simpl. step_push transport. step_email transport.
    eexists _, _. split; [reflexivity|].
    split; [split_globals; congruence|].
    repeat split; trace_facts.
  - destruct (caught_by [KeyboardInterrupt] e) eqn:EK; simpl;
      unfold bind, emit; simpl; step_push transport; step_email transport;
      rewrite <- ?app_assoc; simpl;
      (eexists _, _; split; [reflexivity|];
       split; [split_globals; congruence|];
       repeat split; trace_facts).
Qed.

(** While the loop is still going, so is [main]. *)
Lemma main_guarded_going (fuel : nat) (w1 w2 : World) (l2 : list event) :
  main_loop cfg orc fuel w1 = mkOut Running w2 l2 ->
  main_guarded cfg orc fuel w1 = mkOut Running w2 l2.
Proof.
  intros EL. unfold main_guarded, try_finally, try_except. rewrite EL.
  reflexivity.
Qed.

(** X13.  A signal handled before [main] is called (the handlers are
    installed when the module is loaded) makes [main] announce the start
    and the stop of the service and nothing else: no check is made, no
    browser is started and nothing sleeps. *)
Theorem main_after_an_early_signal (fuel : nat) (w : World) :
  running w = false ->
  res (main cfg orc fuel w) = Ret tt /\
  notifications (out (main cfg orc fuel w)) =
    (start_alert cfg ++ stopped_alert cfg)%list /\
  filter is_launch (out (main cfg orc fuel w)) = [] /\
  filter is_sleep (out (main cfg orc fuel w)) = [].
Proof.
  intros Hr.
  destruct (main_start fuel w) as (w1 & l0 & G & N0 & L0 & S0 & H).
  assert (Hr1 : running w1 = false) by (split_globals; congruence).
  destruct (main_guarded_run fuel w1 w1 (Ret tt) []
              (main_loop_stopped cfg orc fuel w1 Hr1) ltac:(discriminate))
    as (w3 & l3 & E & _ & N3 & L3 & S3).
  rewrite (H _ _ _ E). simpl. unfold notifications in *.
  rewrite !filter_app, N0, N3, L0, L3, S0, S3. auto.
Qed.

End RunsOfMain.

(** The handler ran once before [main] was called. *)
Lemma main_after_an_early_signal_witness :
  notifications
    (out (main Scenario.cfg (Scenario.unconfigured Scenario.out_of_stock) 5
               (set_running false Scenario.start))) =
  (start_alert Scenario.cfg ++ stopped_alert Scenario.cfg)%list.
Proof.
  exact (proj1 (proj2 (main_after_an_early_signal
           Scenario.cfg (Scenario.unconfigured Scenario.out_of_stock)
           (Scenario.no_traffic_transport
              (Scenario.unconfigured Scenario.out_of_stock)
              (fun _ => eq_refl) (fun _ _ => eq_refl))
           5 (set_running false Scenario.start) eq_refl))).
Defined.

(** ** An exception that leaves a check *)

Section Escapes.

Variable cfg : Config.
Variable orc : Oracle.
Hypothesis transport : transport_errors_only orc.

(** X14.  An exception that leaves [check_stock] ends the service: it is
    not counted as a failure and no error alert is sent for it, no second
    check is made, the [finally] of [main] still sends the stopped pair, and
    then [main] ends with the exception (a [KeyboardInterrupt] apart, which
    [main] catches). *)
Theorem exception_leaving_a_check_ends_main
        (fuel : nat) (w : World) (e : exn) :
  running w = true ->
  escapes orc (checks w) e ->
  res (main cfg orc (S fuel) w) =
    (if caught_by [KeyboardInterrupt] e then Ret tt else Raise e) /\
  notifications (out (main cfg orc (S fuel) w)) =
    (start_alert cfg ++ stopped_alert cfg)%list /\
  count is_launch (out (main cfg orc (S fuel) w)) = 1%nat /\
  consecutive_failures (world (main cfg orc (S fuel) w)) =
    consecutive_failures w.
Proof.
  intros Hr He.
  destruct (main_start cfg orc transport (S fuel) w)
    as (w1 & l0 & G & N0 & L0 & S0 & H).
  assert (Hr1 : running w1 = true) by (split_globals; congruence).
  assert (Hk : checks w1 = checks w) by (split_globals; congruence).
  assert (Hn : consecutive_failures w1 = consecutive_failures w)
    by (split_globals; congruence).
  rewrite <- Hk in He.
  destruct (check_stock_escapes cfg orc transport w1 e He)
    as (w2 & l2 & E2 & C2 & N2 & L2).
  assert (EL : main_loop cfg orc (S fuel) w1 = mkOut (Raise e) w2 l2).
  { rewrite (main_loop_step cfg orc fuel w1 Hr1).
    unfold iteration, bind at 1. rewrite E2. reflexivity. }
  destruct (main_guarded_run cfg orc transport (S fuel) w1 w2 (Raise e) l2 EL
              ltac:(discriminate))
    as (w3 & l3 & E & G3 & N3 & L3 & S3).
  rewrite (H _ _ _ E). simpl. unfold notifications, count in *.
  rewrite !filter_app, !length_app, N0, N2, N3, L0, L3, L2.
  repeat split. split_globals. congruence.
Qed.

End Escapes.

(** The browser cannot be started. *)
Lemma exception_leaving_a_check_ends_main_witness :
  res (main Scenario.cfg Scenario.no_browser 3 Scenario.start) =
  Raise Scenario.no_session.
Proof.
  exact (proj1 (exception_leaving_a_check_ends_main
           Scenario.cfg Scenario.no_browser
           (Scenario.no_traffic_transport Scenario.no_browser
              (fun _ => eq_refl) (fun _ _ => eq_refl))
           2 Scenario.start Scenario.no_session eq_refl
           (or_introl eq_refl))).
Defined.

(** ** A loop that nothing stops *)

Section KeepsPolling.

Variable cfg : Config.
Variable orc : Oracle.
Hypothesis transport : transport_errors_only orc.
Hypothesis poll_ok : 0 <= POLL_INTERVAL cfg.
Hypothesis interval_ok : heartbeat_interval_ok cfg.



End KeepsPolling.



(** ** The driver calls of a check *)

Definition is_source (e : event) : bool :=
  match e with PageSource => true | _ => false end.

(** What [set_store_cookie] does when nothing raises. *)
Definition store_cookie_calls (cfg : Config) : list event :=
  [DriverGet (Some "https://www.microcenter.com"); Sleep 1;
   AddCookie (STORE_COOKIE_NAME cfg) (STORE_COOKIE_VALUE cfg);
   DriverGet (PRODUCT_URL cfg); Sleep 1].

Lemma out_try_except {A} (body : M A) (classes : list exn_class)
      (handler : exn -> M A) (w : World) :
  out (try_except body classes handler w) =
  (out (body w) ++ match res (body w) with
                   | Raise e => if caught_by classes e
                                then out (handler e (world (body w)))
                                else []
                   | _ => []
                   end)%list.
Proof.
  unfold try_except. destruct (body w) as [[a|e|] w1 o1]; simpl;
    rewrite ?app_nil_r; try reflexivity.
  destruct (caught_by classes e); simpl.
  - destruct (handler e w1); reflexivity.
  - rewrite app_nil_r; reflexivity.
Qed.

Lemma not_in_filtered (p : event -> bool) (e : event) (l : list event) :
  filter p l = [] -> p e = true -> ~ In e l.
Proof.
  intros F P I.
  assert (H : In e (filter p l)) by (apply filter_In; auto).
  rewrite F in H. destruct H.
Qed.

Section DriverCalls.

Variable cfg : Config.
Variable orc : Oracle.

Lemma set_store_cookie_run (c : nat) (w : World) :
  match res (set_store_cookie cfg orc c w) with
  | Ret _ => out (set_store_cookie cfg orc c w) = store_cookie_calls cfg
  | _ => filter is_source (out (set_store_cookie cfg orc c w)) = []
  end.
Proof.
  unfold set_store_cookie, bind, extcall, bind, emit, sleep, ret, raise. simpl.
  destruct (fetch_at orc c AtHome); simpl; [reflexivity|].
  destruct (fetch_at orc c AtCookie); simpl; [reflexivity|].
  destruct (fetch_at orc c AtProduct); simpl; reflexivity.
Qed.

(** The [try] block reads the page source once, and only after
    [set_store_cookie] has returned. *)
Lemma check_stock_try_trace (c : nat) (w : World) :
  match res (set_store_cookie cfg orc c w) with
  | Ret _ =>
      exists tl,
        out (check_stock_try cfg orc c w) =
          (store_cookie_calls cfg ++ PageSource :: tl)%list /\
        filter is_source tl = []
  | _ => filter is_source (out (check_stock_try cfg orc c w)) = []
  end.
Proof.
  pose proof (set_store_cookie_run c w) as H.
  unfold check_stock_try. rewrite out_bind.
  match goal with
  | |- context [bind (extcall PageSource ?a) ?K] =>
      assert (Q : forall u, quiet is_source (K u))
        by (intros u; cbv beta zeta; quiet_prog);
      generalize dependent K; intros k Q
  end.
  destruct (set_store_cookie cfg orc c w) as [[[]|e|] w1 l1]; simpl in *;
    try (rewrite app_nil_r; exact H).
  subst l1. rewrite out_bind. unfold extcall at 1 2 3. rewrite out_bind.
  unfold bind at 1 2, emit. simpl.
  destruct (fetch_at orc c AtSource) as [e|]; simpl.
  - exists []. split; reflexivity.
  - exists (out (k tt w1)). split; [reflexivity | apply Q].
Qed.

(** X17.  A check reads the page source only when the store cookie has
    been set and the product page loaded: if [driver.page_source] is read
    at all, the check has before it started the browser, loaded the home
    page, waited a second, added the cookie, loaded [PRODUCT_URL] and waited
    a second, in this order and with nothing in between, and it reads the
    page source once. *)
Theorem page_is_read_after_the_cookie_is_set (w : World) :
  In PageSource (out (check_stock cfg orc w)) ->
  exists rest,
    out (check_stock cfg orc w) =
      (ChromeNew ["--headless"; "--disable-gpu"; "--no-sandbox"]
       :: store_cookie_calls cfg ++ PageSource :: rest)%list /\
    filter is_source rest = [].
Proof.
  intros HIn.
  destruct (chrome_at orc (checks w)) as [e|] eqn:Hc.
  { rewrite (check_stock_no_driver cfg orc w e Hc) in HIn. simpl in HIn.
    destruct HIn as [H|[]]. discriminate H. }
  destruct (check_stock_with_driver cfg orc w Hc)
    as (r & w1 & body & E & _ & Eq).
  rewrite Eq in *. cbn [out] in *.
  assert (B : body = out (check_stock_guarded cfg orc (checks w) (tick_checks w)))
    by (rewrite E; reflexivity).
  unfold check_stock_guarded in B. rewrite out_try_except in B.
  pose proof (check_stock_try_trace (checks w) (tick_checks w)) as T.
  match type of B with
  | _ = (_ ++ ?x)%list =>
      assert (Qh : filter is_source x = []);
      [| generalize dependent x; intros h B Qh ]
  end.
  { destruct (res (check_stock_try cfg orc (checks w) (tick_checks w)));
      try reflexivity.
    destruct (caught_by _ e); [|reflexivity].
    assert (Q : quiet is_source (check_stock_except cfg orc e))
      by (unfold check_stock_except; quiet_prog).
    apply Q. }
  destruct (res (set_store_cookie cfg orc (checks w) (tick_checks w)))
    as [[]|e|].
  - destruct T as (tl & Et & Qt). rewrite Et in B. subst body.
    exists (tl ++ h ++ [DriverQuit])%list. split.
    + rewrite <- !app_assoc. reflexivity.
    + rewrite !filter_app, Qt, Qh. reflexivity.
  - exfalso. refine (not_in_filtered is_source PageSource _ _ eq_refl HIn).
    subst body. simpl. rewrite !filter_app, T, Qh. reflexivity.
  - exfalso. refine (not_in_filtered is_source PageSource _ _ eq_refl HIn).
    subst body. simpl. rewrite !filter_app, T, Qh. reflexivity.
Qed.

End DriverCalls.

(** A check of an out-of-stock page. *)
Lemma page_is_read_after_the_cookie_is_set_witness :
  exists rest,
    out (check_stock Scenario.cfg (Scenario.unconfigured Scenario.out_of_stock)
                     Scenario.start) =
      (ChromeNew ["--headless"; "--disable-gpu"; "--no-sandbox"]
       :: store_cookie_calls Scenario.cfg ++ PageSource :: rest)%list /\
    filter is_source rest = [].
Proof.
  apply (page_is_read_after_the_cookie_is_set
           Scenario.cfg (Scenario.unconfigured Scenario.out_of_stock)
           Scenario.start).
  vm_compute. tauto.
Defined.

(** ** The time of the last heartbeat *)

(** [last_heartbeat] is set after if it was set before. *)
Definition stays_set (w w' : World) : Prop :=
  last_heartbeat w <> None -> last_heartbeat w' <> None.

Lemma stays_set_trans (a b c : World) :
  stays_set a b -> stays_set b c -> stays_set a c.
Proof. unfold stays_set. auto. Qed.


(** X18.  [main] sets [last_heartbeat] before anything else can fail, and
    nothing clears it afterwards: it is set when [main] ends, however
    [main] ends, and a loop or a heartbeat that starts with
    [last_heartbeat] set ends with it set, so that the comparison of the
    loop never meets [None] again. *)
Theorem last_heartbeat_is_set_for_good
        (cfg : Config) (orc : Oracle) (fuel : nat) (w : World) :
  last_heartbeat (world (main cfg orc fuel w)) <> None /\
  (last_heartbeat w <> None ->
   last_heartbeat (world (send_heartbeat cfg orc w)) <> None /\
   last_heartbeat (world (main_loop cfg orc fuel w)) <> None).
Proof.
  assert (Hrefl : forall a, stays_set a a) by (intros a H; exact H).
  split.
  - change (main cfg orc fuel)
      with (emit (Log INFO "Starting Microcenter Stock Checker loop") ;;
            start_time <- now orc ;;
            modify (set_last_heartbeat (Some start_time)) ;;
            main_after_start cfg orc fuel).
    unfold now, bind, emit, get, modify, ret. simpl.
    match goal with
    | |- context [main_after_start cfg orc fuel ?w1] =>
        pose proof (keeps_main_after_start stays_set Hrefl stays_set_trans)
          as K;
        specialize (K ltac:(unfold stays_set; simpl; auto)
                      ltac:(unfold stays_set; simpl; auto)
                      ltac:(unfold stays_set; simpl; auto)
                      ltac:(unfold stays_set; simpl; auto)
                      ltac:(unfold stays_set; simpl; auto)
                      ltac:(unfold stays_set; simpl; auto)
                      ltac:(unfold stays_set; simpl; auto)
                      ltac:(unfold stays_set; simpl; intros; discriminate)
                      cfg orc fuel w1);
        destruct (main_after_start cfg orc fuel w1) as [r w3 l3]
    end.
    simpl in *. apply K. simpl. discriminate.
  - intros H. split.
    + apply (keeps_send_heartbeat stays_set Hrefl stays_set_trans);
        unfold stays_set; simpl; auto; intros; discriminate.
    + apply (keeps_main_loop stays_set Hrefl stays_set_trans);
        unfold stays_set; simpl; auto; intros; discriminate.
Qed.

(** A loop of three iterations after a first heartbeat at time 0. *)
Lemma last_heartbeat_is_set_for_good_witness :
  last_heartbeat
    (world (main_loop Scenario.cfg
              (Scenario.unconfigured Scenario.out_of_stock) 3
              (set_last_heartbeat (Some 0) Scenario.start))) <> None.
Proof.
  apply (proj2 (last_heartbeat_is_set_for_good
                  Scenario.cfg (Scenario.unconfigured Scenario.out_of_stock)
                  3 (set_last_heartbeat (Some 0) Scenario.start))).
  simpl. discriminate.
Defined.
